(** * quanto/tensor/qtensor.py: quantized tensors

    A shallow embedding of [quanto/tensor/qtensor.py] (the symmetric
    quantizer, the dequantizer, the [QTensor] wrapper and [qfallback]) and
    the properties its specification states about it.

    Modelling decisions.
    - A [torch.Tensor] is a record of its shape, strides, dtype, device and
      its elements in row-major order.  Elements are rationals.  The quotient
      and the product of two elements are the host's ([div_elt], [mul_elt]):
      what floating-point arithmetic rounds, and what it makes of a division
      by zero or of an overflow, is the host's to say, and the properties
      hold of every host.  The rounding and the clamping the quantizer itself
      performs are modelled here.  An infinity is held as a rational beyond
      the finite values of every dtype; a NaN cannot be held.
    - Python exceptions are an error monad ([result]); an [assert] raises
      [AssertionError].
    - What the file imports from the rest of the package and from torch
      ([dtype_info], the dtypes, the element conversion of [Tensor.to], type
      promotion, the element arithmetic and the layout of a result) is the
      interface [Host]; [absmax_scale] is modelled from the specification.
    - The registries [__torch_function__] and [__torch_dispatch__] look
      operations up in, which other files fill, are the interface
      [Registry].
    - [__repr__] and [numpy] are not modelled. *)

From Stdlib Require Import ZArith QArith Qround Qabs Qminmax Lia Lqa List.
From stdpp Require Import base strings gmap list.

Local Open Scope string_scope.
Local Open Scope nat_scope.

(** ** Exceptions *)

Inductive exn :=
| ValueError (msg : string)
| AssertionError
| KeyError (key : string)
| RuntimeError (msg : string)
| TypeError (msg : string).

Inductive result (A : Type) :=
| Ok (a : A)
| Raise (e : exn).

Arguments Ok {A} a.
Arguments Raise {A} e.

Definition bind {A B : Type} (m : result A) (k : A -> result B) : result B :=
  match m with
  | Ok a => k a
  | Raise e => Raise e
  end.

Notation "x <- m ;; k" := (bind m (fun x => k))
  (at level 100, m at next level, right associativity).

(** [assert b] *)
Definition py_assert (b : bool) : result unit :=
  if b then Ok tt else Raise AssertionError.

(** [d[key]] on a dict: a missing key raises [KeyError]. *)
Definition getitem {V : Type} (d : gmap string V) (key : string) : result V :=
  match d !! key with
  | Some v => Ok v
  | None => Raise (KeyError key)
  end.

(** Monadic map over a list, left to right; the first exception wins. *)
Definition mapM {A B : Type} (f : A -> result B) : list A -> result (list B) :=
  fix go (l : list A) : result (list B) :=
    match l with
    | [] => Ok []
    | x :: l' => y <- f x;; ys <- go l';; Ok (y :: ys)
    end.

(** ** Element arithmetic *)

(** [torch.round] on one element: to the nearest integer, ties to even. *)
Definition round_half_even (x : Q) : Z :=
  let f := Qfloor x in
  match Qcompare (x - inject_Z f) (1 # 2) with
  | Lt => f
  | Gt => (f + 1)%Z
  | Eq => if Z.even f then f else (f + 1)%Z
  end.

(** [torch.clamp(x, min=lo, max=hi)] on one element: [min(max(x, lo), hi)]. *)
Definition clamp_elt (lo hi x : Q) : Q :=
  let y := if Qlt_le_dec x lo then lo else x in
  if Qlt_le_dec hi y then hi else y.

(** ** Shapes, flat offsets and broadcasting *)

Definition numel (s : list nat) : nat := fold_right Nat.mul 1 s.

(** Strides of a contiguous tensor of shape [s]. *)
Fixpoint contiguous_strides (s : list nat) : list nat :=
  match s with
  | [] => []
  | _ :: s' => numel s' :: contiguous_strides s'
  end.

(** The multi-index of the element at row-major position [k]. *)
Fixpoint unravel (s : list nat) (k : nat) : list nat :=
  match s with
  | [] => []
  | _ :: s' => k / numel s' :: unravel s' (k mod numel s')
  end.

(** The row-major position of a multi-index. *)
Fixpoint ravel (s idx : list nat) : nat :=
  match s, idx with
  | _ :: s', i :: idx' => i * numel s' + ravel s' idx'
  | _, _ => 0
  end.

(** Broadcasting of two shapes read from their last dimension. *)
Fixpoint broadcast_rev (a b : list nat) : result (list nat) :=
  match a, b with
  | [], _ => Ok b
  | _, [] => Ok a
  | x :: a', y :: b' =>
      r <- broadcast_rev a' b';;
      if x =? y then Ok (x :: r)
      else if x =? 1 then Ok (y :: r)
      else if y =? 1 then Ok (x :: r)
      else Raise (RuntimeError "The size of tensor a must match the size of tensor b")
  end.

Definition broadcast_shapes (a b : list nat) : result (list nat) :=
  r <- broadcast_rev (rev a) (rev b);; Ok (rev r).

(** The multi-index into an operand of shape [s] that a multi-index [idx] of
    the broadcast result reads: leading dimensions the operand lacks are
    dropped, and a dimension of size 1 is read at 0. *)
Definition bindex (s idx : list nat) : list nat :=
  zip_with (fun d i => if d =? 1 then 0 else i) s (drop (length idx - length s) idx).

(** The position in an operand of shape [s] read at position [k] of a broadcast
    result of shape [rs]. *)
Definition src_offset (s rs : list nat) (k : nat) : nat :=
  ravel s (bindex s (unravel rs k)).

(** ** Devices *)

Inductive torch_device :=
| cpu
| cuda (index : nat).

Definition device_eqb (a b : torch_device) : bool :=
  match a, b with
  | cpu, cpu => true
  | cuda i, cuda j => i =? j
  | _, _ => false
  end.

(** ** The host interface *)

(** What [dtype_info] returns ([torch.iinfo] or [torch.finfo]): the
    representable range of a dtype. *)
Record dinfo := mk_dinfo { imin : Q; imax : Q }.

(** The names [qtensor.py] takes from torch and from [quanto.tensor.core],
    whose code is not part of this file.
    - [torch_dtype]: the dtypes.
    - [dtype_info]: [quanto.tensor.core.dtype_info].
    - [to_dtype dt x]: the element [x] converted to [dt], as [Tensor.to] does.
    - [result_type d1 n1 d2 n2]: the dtype of the result of an arithmetic
      operation on a tensor of dtype [d1] and rank [n1] and one of dtype [d2]
      and rank [n2] (type promotion).
    - [div_elt dt x y] and [mul_elt dt x y]: the quotient and the product of
      two elements as the host computes them in the dtype [dt] of the result,
      with the rounding of that dtype; an infinite result is a rational of its
      sign beyond the finite values of every dtype.
    - [result_strides sa sta sb stb rs]: the strides of the result, of shape
      [rs], of an element-wise operation on an operand of shape [sa] and
      strides [sta] and one of shape [sb] and strides [stb].
    - the floor [eps_num / eps_den > 0] below which [absmax_scale] does not
      let a scale fall. *)
Class Host := {
  torch_dtype : Type;
  dtype_info : torch_dtype -> dinfo;
  to_dtype : torch_dtype -> Q -> Q;
  result_type : torch_dtype -> nat -> torch_dtype -> nat -> torch_dtype;
  div_elt : torch_dtype -> Q -> Q -> Q;
  mul_elt : torch_dtype -> Q -> Q -> Q;
  result_strides : list nat -> list nat -> list nat -> list nat -> list nat -> list nat;
  eps_num : positive;
  eps_den : positive
}.

Section Model.
Context `{Host}.

(** ** Tensors *)

Record tensor := mk_tensor {
  shape : list nat;
  stride : list nat;
  dtype : torch_dtype;
  device : torch_device;
  values : list Q
}.

Definition ndim (t : tensor) : nat := length (shape t).

(** The element at row-major position [k]. *)
Definition tget (t : tensor) (k : nat) : Q := nth k (values t) 0%Q.

(** The element of [t] that position [k] of a broadcast result of shape [rs]
    reads. *)
Definition bget (t : tensor) (rs : list nat) (k : nat) : Q :=
  tget t (src_offset (shape t) rs k).

(** [torch.squeeze(t)]: every dimension of size 1 is removed. *)
Definition squeeze (t : tensor) : tensor :=
  {| shape := List.filter (fun d => negb (d =? 1)) (shape t);
     stride := map snd (List.filter (fun p => negb (fst p =? 1)) (zip (shape t) (stride t)));
     dtype := dtype t;
     device := device t;
     values := values t |}.

Definition tmap (f : Q -> Q) (t : tensor) : tensor :=
  {| shape := shape t;
     stride := stride t;
     dtype := dtype t;
     device := device t;
     values := map f (values t) |}.

(** [torch.round(t)] *)
Definition torch_round (t : tensor) : tensor :=
  tmap (fun x => inject_Z (round_half_even x)) t.

(** [torch.clamp(t, min=lo, max=hi)] *)
Definition torch_clamp (t : tensor) (lo hi : Q) : tensor :=
  tmap (clamp_elt lo hi) t.

(** [t.to(dt)] *)
Definition tensor_to (t : tensor) (dt : torch_dtype) : tensor :=
  {| shape := shape t;
     stride := stride t;
     dtype := dt;
     device := device t;
     values := map (to_dtype dt) (values t) |}.

(** The device of the result of a binary operation: both operands on one
    device, or one of them a 0-dim tensor on the cpu. *)
Definition binop_device (a b : tensor) : result torch_device :=
  if device_eqb (device a) (device b) then Ok (device a)
  else if (ndim a =? 0) && device_eqb (device a) cpu then Ok (device b)
  else if (ndim b =? 0) && device_eqb (device b) cpu then Ok (device a)
  else Raise (RuntimeError "Expected all tensors to be on the same device").

(** An element-wise binary operation with broadcasting; [f dt] is the
    operation on two elements in the dtype [dt] of the result. *)
Definition binop (f : torch_dtype -> Q -> Q -> Q) (a b : tensor) : result tensor :=
  dev <- binop_device a b;;
  rs <- broadcast_shapes (shape a) (shape b);;
  let dt := result_type (dtype a) (ndim a) (dtype b) (ndim b) in
  Ok {| shape := rs;
        stride := result_strides (shape a) (stride a) (shape b) (stride b) rs;
        dtype := dt;
        device := dev;
        values := map (fun k => f dt (bget a rs k) (bget b rs k)) (seq 0 (numel rs)) |}.

(** [a / b] *)
Definition torch_div : tensor -> tensor -> result tensor := binop div_elt.

(** [a * b] *)
Definition torch_mul : tensor -> tensor -> result tensor := binop mul_elt.

(** ** Quantized types *)

(** [quanto.tensor.qtype.qtype], by the two attributes [qtensor.py] reads. *)
Record qtype := mk_qtype {
  is_floating_point : bool;
  qtype_dtype : torch_dtype
}.

(** The largest absolute value of a list of elements. *)
Definition absmax (l : list Q) : Q :=
  fold_right (fun x m => Qmax (Qabs x) m) 0%Q l.

(** Modelled from the spec: [quanto.tensor.core.absmax_scale(base, qtype)]
    with [axis=None], the call [Quantizer.forward] makes; its code is not in
    this file.  The scale is the scalar [max(|base|) / max] for the largest
    magnitude [max] the qtype represents, the quotient being the host's in
    the dtype of [base], kept from falling below the floor; it has the dtype
    and the device of [base]. *)
Definition absmax_scale (base : tensor) (qt : qtype) : tensor :=
  let info := dtype_info (qtype_dtype qt) in
  {| shape := [];
     stride := [];
     dtype := dtype base;
     device := device base;
     values := [Qmax (div_elt (dtype base) (absmax (values base)) (imax info))
                     (Zpos eps_num # eps_den)] |}.

(** ** QTensor *)

(** The wrapper [torch.Tensor._make_wrapper_subclass] makes: the attributes the
    tensor shows to the outside. *)
Record wrapper := mk_wrapper {
  w_size : list nat;
  w_strides : list nat;
  w_dtype : torch_dtype;
  w_device : torch_device;
  w_requires_grad : bool
}.

Record QTensor := mk_QTensor {
  outer : wrapper;
  _qtype : qtype;
  _axis : option Z;
  _data : tensor;
  _scale : tensor
}.

(** [QTensor.__new__] *)
Definition QTensor__new__ (qt : qtype) (data scale : tensor) (requires_grad : bool)
  : result wrapper :=
  _ <- py_assert (device_eqb (device data) (device scale));;
  Ok {| w_size := shape data;
        w_strides := stride data;
        w_dtype := dtype scale;
        w_device := device data;
        w_requires_grad := requires_grad |}.

(** The loop of [QTensor.__init__] over [range(n)]: the index of every
    dimension whose size is not 1 is assigned to the axis in turn. *)
Definition axis_loop (dims : list nat) (n : nat) (axis : option Z) : option Z :=
  fold_left (fun axis i => if negb (nth i dims 0 =? 1) then Some (Z.of_nat i) else axis)
            (seq 0 n) axis.

(** [QTensor.__init__] *)
Definition QTensor__init__ (self : wrapper) (qt : qtype) (data scale : tensor)
  : result QTensor :=
  let axis := None in
  if 0 <? ndim scale then
    if 1 <? ndim (squeeze scale) then
      Raise (ValueError "QTensor cannot be quantized along multiple axis.")
    else if negb (ndim scale =? ndim data) then
      Raise (ValueError "The QTensor scale must be broadcastable to the base (Tip: try to add missing dims of length zero).")
    else
      let dims := shape scale in
      let axis := axis_loop dims (ndim scale) axis in
      match axis with
      | None =>
          (* All dims are 1: the scale is actually a scalar *)
          Ok (mk_QTensor self qt None data (squeeze scale))
      | Some a =>
          if (a =? Z.of_nat (ndim scale) - 1)%Z then
            (* Align on the general convention to index the last dimension *)
            Ok (mk_QTensor self qt (Some (-1)%Z) data scale)
          else Ok (mk_QTensor self qt (Some a) data scale)
      end
  else Ok (mk_QTensor self qt axis data scale).

(** [QTensor(qtype, data, scale, requires_grad)]: [__new__], then [__init__]. *)
Definition QTensor_construct (qt : qtype) (data scale : tensor) (requires_grad : bool)
  : result QTensor :=
  self <- QTensor__new__ qt data scale requires_grad;;
  QTensor__init__ self qt data scale.

(** The properties [axis] and [qtype]. *)
Definition axis (self : QTensor) : option Z := _axis self.
Definition qtype_of (self : QTensor) : qtype := _qtype self.

(** ** Quantizer and Dequantizer *)

(** The context object autograd hands to [forward] and [backward]; neither
    reads it. *)
Definition FunctionCtx : Type := unit.

(** [Quantizer.forward] *)
Definition Quantizer_forward (ctx : FunctionCtx) (base : tensor) (qt : qtype)
    (scale : option tensor) : result QTensor :=
  let info := dtype_info (qtype_dtype qt) in
  scale <- match scale with
           | None => Ok (absmax_scale base qt)
           | Some scale =>
               if 0 <? ndim scale then
                 if 1 <? ndim (squeeze scale) then
                   Raise (ValueError "Quantizing along multiple axis is not supported")
                 else if negb (ndim scale =? ndim base) then
                   Raise (ValueError "When quantizing per-axis, the scale must be broadcastable to the base (Tip: try to add missing dims of length zero).")
                 else Ok scale
               else Ok scale
           end;;
  data <- torch_div base scale;;
  let data := if negb (is_floating_point qt) then torch_round data else data in
  let data := tensor_to (torch_clamp data (imin info) (imax info)) (qtype_dtype qt) in
  QTensor_construct qt data scale false.

(** [Quantizer.backward]: one gradient per input of [forward]. *)
Definition Quantizer_backward (ctx : FunctionCtx) (gO : tensor)
  : option tensor * option tensor * option tensor :=
  (Some gO, None, None).

(** [Dequantizer.forward] *)
Definition Dequantizer_forward (ctx : FunctionCtx) (t : QTensor) : result tensor :=
  if is_floating_point (_qtype t) then
    (* Upcast explicitly to the scale dtype *)
    torch_mul (_scale t) (tensor_to (_data t) (dtype (_scale t)))
  else torch_mul (_scale t) (_data t).

(** [Dequantizer.backward] *)
Definition Dequantizer_backward (ctx : FunctionCtx) (gO : tensor) : tensor := gO.

(** [QTensor.quantize] *)
Definition QTensor_quantize (base : tensor) (qt : qtype) (scale : option tensor)
  : result QTensor :=
  Quantizer_forward tt base qt scale.

(** [QTensor.dequantize] *)
Definition QTensor_dequantize (self : QTensor) : result tensor :=
  Dequantizer_forward tt self.

(** ** Flattening *)

(** [QTensor.__tensor_flatten__]: the names of the inner tensors and the
    metadata. *)
Definition QTensor__tensor_flatten__ (self : QTensor) : list string * gmap string qtype :=
  let inner_tensors := ["_data"; "_scale"] in
  let meta := {[ "qtype" := _qtype self ]} in
  (inner_tensors, meta).

(** [getattr(self, name)] for the tensor attributes of a QTensor. *)
Definition getattr_tensor (self : QTensor) (name : string) : option tensor :=
  if String.eqb name "_data" then Some (_data self)
  else if String.eqb name "_scale" then Some (_scale self)
  else None.

(** The mapping the caller of [__tensor_flatten__] builds from the names it
    returned, and hands to [__tensor_unflatten__]. *)
Definition inner_tensors_of (self : QTensor) (names : list string) : gmap string tensor :=
  fold_right (fun name m =>
                match getattr_tensor self name with
                | Some t => <[ name := t ]> m
                | None => m
                end) (∅ : gmap string tensor) names.

(** [QTensor.__tensor_unflatten__] *)
Definition QTensor__tensor_unflatten__ (inner_tensors : gmap string tensor)
    (meta : gmap string qtype) (outer_size outer_stride : list nat) : result QTensor :=
  _ <- py_assert (size inner_tensors =? 2);;
  _ <- py_assert (size meta =? 1);;
  data <- getitem inner_tensors "_data";;
  scale <- getitem inner_tensors "_scale";;
  qt <- getitem meta "qtype";;
  QTensor_construct qt data scale false.

(** ** qfallback *)

(** The leaves of an argument tree. *)
Inductive pyleaf :=
| PyNone
| PyInt (z : Z)
| PyFloat (x : Q)
| PyStr (s : string)
| PyTensor (t : tensor)
| PyQTensor (q : QTensor).

(** The trees [torch.utils._pytree] maps over. *)
#[local] Unset Elimination Schemes.
Inductive pytree :=
| Leaf (v : pyleaf)
| PyTuple (items : list pytree)
| PyList (items : list pytree)
| PyDict (items : list (string * pytree)).
#[local] Set Elimination Schemes.

(** [pytree.tree_map_only(QTensor, fn, tree)] *)
Fixpoint tree_map_only (fn : QTensor -> result tensor) (tree : pytree) : result pytree :=
  match tree with
  | Leaf (PyQTensor q) => t <- fn q;; Ok (Leaf (PyTensor t))
  | Leaf v => Ok (Leaf v)
  | PyTuple items => items' <- mapM (tree_map_only fn) items;; Ok (PyTuple items')
  | PyList items => items' <- mapM (tree_map_only fn) items;; Ok (PyList items')
  | PyDict items =>
      items' <- mapM (fun kv => let '(k, v) := kv in
                                v' <- tree_map_only fn v;; Ok (k, v')) items;;
      Ok (PyDict items')
  end.

(** [kwargs or {}] *)
Definition or_empty (kwargs : list (string * pytree)) : list (string * pytree) :=
  match kwargs with
  | [] => []
  | _ :: _ => kwargs
  end.

(** [qfallback(callable, *args, **kwargs)] *)
Definition qfallback {R : Type}
    (callable : list pytree -> list (string * pytree) -> result R)
    (args : list pytree) (kwargs : list (string * pytree)) : result R :=
  mapped <- tree_map_only QTensor_dequantize (PyTuple [PyTuple args; PyDict (or_empty kwargs)]);;
  match mapped with
  | PyTuple [PyTuple args'; PyDict kwargs'] => callable args' kwargs'
  | _ => Raise (TypeError "cannot unpack non-iterable object")
  end.

(** ** Vocabulary of the properties *)

(** What [Quantizer.forward] does to one element of [base / scale]. *)
Definition quantize_elt (qt : qtype) (x : Q) : Q :=
  let info := dtype_info (qtype_dtype qt) in
  let x := if negb (is_floating_point qt) then inject_Z (round_half_even x) else x in
  to_dtype (qtype_dtype qt) (clamp_elt (imin info) (imax info) x).

(** The number of dimensions of a shape whose size is not 1: the rank of the
    squeezed tensor. *)
Definition nonunit_dims (s : list nat) : nat :=
  length (List.filter (fun d => negb (d =? 1)) s).

(** A QTensor some call of the constructor returned. *)
Definition QTensor_valid (q : QTensor) : Prop :=
  exists qt data scale requires_grad,
    QTensor_construct qt data scale requires_grad = Ok q.

(** [dequantized tree tree']: [tree'] is [tree] with every QTensor in it
    replaced by the tensor it dequantizes to, and nothing else changed. *)
#[local] Unset Elimination Schemes.
Inductive dequantized : pytree -> pytree -> Prop :=
| dequantized_qtensor q t :
    QTensor_dequantize q = Ok t ->
    dequantized (Leaf (PyQTensor q)) (Leaf (PyTensor t))
| dequantized_other v :
    (forall q, v <> PyQTensor q) ->
    dequantized (Leaf v) (Leaf v)
| dequantized_tuple items items' :
    Forall2 dequantized items items' ->
    dequantized (PyTuple items) (PyTuple items')
| dequantized_list items items' :
    Forall2 dequantized items items' ->
    dequantized (PyList items) (PyList items')
| dequantized_dict items items' :
    Forall2 (fun kv kv' => fst kv = fst kv' /\ dequantized (snd kv) (snd kv')) items items' ->
    dequantized (PyDict items) (PyDict items').
#[local] Set Elimination Schemes.

End Model.

(** ** A host to run the model on *)

(** Three of torch's dtypes. *)
Inductive dt3 :=
| int8
| float8_e4m3fn
| float32.

Definition dt3_is_float (d : dt3) : bool :=
  match d with
  | int8 => false
  | _ => true
  end.

Definition dt3_eqb (a b : dt3) : bool :=
  match a, b with
  | int8, int8 | float8_e4m3fn, float8_e4m3fn | float32, float32 => true
  | _, _ => false
  end.

(** [torch.iinfo(torch.int8)], [torch.finfo(torch.float8_e4m3fn)] and
    [torch.finfo(torch.float32)]. *)
Definition dt3_info (d : dt3) : dinfo :=
  match d with
  | int8 => mk_dinfo (-128) 127
  | float8_e4m3fn => mk_dinfo (-448) 448
  | float32 => mk_dinfo (inject_Z (- (2 ^ 128 - 2 ^ 104))) (inject_Z (2 ^ 128 - 2 ^ 104))
  end.

(** Truncation towards zero. *)
Definition Qtrunc (x : Q) : Z :=
  if Qlt_le_dec x 0 then Qceiling x else Qfloor x.

(** The binary exponent of a rational other than 0: the [e] with
    [2 ^ e <= |x| < 2 ^ (e + 1)]. *)
Definition Qexponent (x : Q) : Z :=
  let n := Z.abs (Qnum x) in
  let d := Zpos (Qden x) in
  let e := (Z.log2 n - Z.log2 d)%Z in
  if (if (0 <=? e)%Z then (d * 2 ^ e <=? n)%Z else (d <=? n * 2 ^ (- e))%Z)
  then e
  else (e - 1)%Z.

(** Rounding to the nearest value of a binary floating-point format with
    [prec] bits of precision whose smallest normal exponent is [emin], ties
    to even; below [2 ^ emin] the values are the subnormal ones. *)
Definition round_binary (prec emin : Z) (x : Q) : Q :=
  if Qeq_bool x 0 then 0%Q
  else
    let e := Z.max (Qexponent x) emin in
    let ulp := Qpower 2 (e - prec + 1) in
    Qred (inject_Z (round_half_even (x / ulp)) * ulp).

(** The rational that holds an infinity of [float32]: the first magnitude
    beyond its finite values. *)
Definition float32_inf : Q := inject_Z (2 ^ 128).

Definition is_inf (x : Q) : bool := Qle_bool float32_inf (Qabs x).

(** The infinity of the sign of [x]. *)
Definition signed_inf (x : Q) : Q :=
  if Qle_bool 0 x then float32_inf else (- float32_inf)%Q.

(** A rational as [float32] holds it: rounded to binary32, an overflow being
    an infinity. *)
Definition to_float32 (x : Q) : Q :=
  let r := round_binary 24 (-126) x in
  if is_inf r then signed_inf r else r.

(** Conversion of an element: to [int8] by truncation and two's complement
    wrap-around; to a floating dtype by rounding to its precision, 4 bits for
    [float8_e4m3fn], whose range the quantizer clamps to beforehand. *)
Definition dt3_to (d : dt3) (x : Q) : Q :=
  match d with
  | int8 => inject_Z ((Qtrunc x + 128) mod 256 - 128)
  | float8_e4m3fn => round_binary 4 (-6) x
  | float32 => to_float32 x
  end.

(** Type promotion: a floating dtype wins over an integer one; between two
    floating dtypes a tensor with dimensions wins over a 0-dim one. *)
Definition dt3_result_type (d1 : dt3) (n1 : nat) (d2 : dt3) (n2 : nat) : dt3 :=
  if dt3_eqb d1 d2 then d1
  else if negb (dt3_is_float d1) then d2
  else if negb (dt3_is_float d2) then d1
  else if (n1 =? 0) && negb (n2 =? 0) then d2
  else if (n2 =? 0) && negb (n1 =? 0) then d1
  else float32.

Fixpoint shape_eqb (a b : list nat) : bool :=
  match a, b with
  | [], [] => true
  | x :: a', y :: b' => (x =? y) && shape_eqb a' b'
  | _, _ => false
  end.

(** The strides of a dense tensor of shape [s] whose dimensions are laid out
    in the order of the strides [st]: the stride of a dimension is the product
    of the sizes of the dimensions of a smaller stride, and of the later ones
    of the same stride. *)
Definition dense_strides_like (s st : list nat) : list nat :=
  imap (fun i sti =>
          numel (imap (fun j d =>
                         if (nth j st 0 <? sti) || ((nth j st 0 =? sti) && (i <? j))
                         then d else 1) s)) st.

(** The layout of a result: that of the operand that has the shape of the
    result, the first one if both have; contiguous if neither has. *)
Definition dt3_result_strides (sa sta sb stb rs : list nat) : list nat :=
  if shape_eqb sa rs then dense_strides_like rs sta
  else if shape_eqb sb rs then dense_strides_like rs stb
  else contiguous_strides rs.

(** The quotient without rounding; a division of a non-zero element by zero
    is an infinity, and 0 stands where torch gives a NaN. *)
Definition exact_div (x y : Q) : Q :=
  if Qeq_bool y 0 then (if Qeq_bool x 0 then 0%Q else signed_inf x)
  else (x / y)%Q.

(** The host with exact arithmetic: quotients and products are not rounded. *)
Definition torch3 : Host :=
  {| torch_dtype := dt3;
     dtype_info := dt3_info;
     to_dtype := dt3_to;
     result_type := dt3_result_type;
     div_elt := fun _ => exact_div;
     mul_elt := fun _ => Qmult;
     result_strides := dt3_result_strides;
     eps_num := 1;
     eps_den := 1000000 |}.

(** The quotient and the product of [float32]: rounded to binary32.  A
    division of a non-zero element by zero and an overflow give an infinity,
    and an infinity stays one; 0 stands where torch gives a NaN, which no
    rational holds. *)
Definition float32_div (x y : Q) : Q :=
  if Qeq_bool y 0 then (if Qeq_bool x 0 then 0%Q else signed_inf x)
  else if is_inf x then (if is_inf y then 0%Q else signed_inf (x / y))
  else if is_inf y then 0%Q
  else to_float32 (x / y).

Definition float32_mul (x y : Q) : Q :=
  if is_inf x || is_inf y
  then (if Qeq_bool (x * y) 0 then 0%Q else signed_inf (x * y))
  else to_float32 (x * y).

Definition ieee_div (dt : dt3) (x y : Q) : Q :=
  match dt with
  | float32 => float32_div x y
  | _ => dt3_to dt (x / y)
  end.

Definition ieee_mul (dt : dt3) (x y : Q) : Q :=
  match dt with
  | float32 => float32_mul x y
  | _ => dt3_to dt (x * y)
  end.

(** The host with the arithmetic of IEEE 754. *)
Definition torch3_ieee : Host :=
  {| torch_dtype := dt3;
     dtype_info := dt3_info;
     to_dtype := dt3_to;
     result_type := dt3_result_type;
     div_elt := ieee_div;
     mul_elt := ieee_mul;
     result_strides := dt3_result_strides;
     eps_num := 1;
     eps_den := 1000000 |}.

(** [quanto.tensor.qtype.qint8] and an 8-bit floating qtype. *)
Definition qint8 : @qtype torch3 := @mk_qtype torch3 false int8.
Definition qfloat8 : @qtype torch3 := @mk_qtype torch3 true float8_e4m3fn.

(** A contiguous float32 tensor on the cpu. *)
Definition f32 (s : list nat) (l : list Q) : @tensor torch3 :=
  @mk_tensor torch3 s (contiguous_strides s) float32 cpu l.

(** The same on a cuda device. *)
Definition f32_cuda (s : list nat) (l : list Q) : @tensor torch3 :=
  @mk_tensor torch3 s (contiguous_strides s) float32 (cuda 0) l.

(** A contiguous int8 tensor on the cpu. *)
Definition i8 (s : list nat) (l : list Q) : @tensor torch3 :=
  @mk_tensor torch3 s (contiguous_strides s) int8 cpu l.

(** [qint8] and a contiguous float32 tensor on the cpu, on the host with the
    arithmetic of IEEE 754. *)
Definition qint8_ieee : @qtype torch3_ieee := @mk_qtype torch3_ieee false int8.

Definition f32_ieee (s : list nat) (l : list Q) : @tensor torch3_ieee :=
  @mk_tensor torch3_ieee s (contiguous_strides s) float32 cpu l.

(** ** Example inputs *)

(** The base tensor of the specification's worked example, the QTensor it
    quantizes to with its absmax scale 5/127 and the tensor that dequantizes
    to. *)
Definition example_base : @tensor torch3 := f32 [3] [-5; 0; 5]%Q.

Definition example_q : @QTensor torch3 :=
  @mk_QTensor torch3 (@mk_wrapper torch3 [3] [1] float32 cpu false) qint8 None
              (i8 [3] [-127; 0; 127]%Q) (f32 [] [5 # 127]%Q).

Definition example_deq : @tensor torch3 :=
  f32 [3] [-635 # 127; 0 # 127; 635 # 127]%Q.

(** Data of rank 4 with a scale along its dimension 1, and the QTensor they
    make. *)
Definition example_data4 : @tensor torch3 := i8 [2; 3; 1; 1] [1; 2; 3; 4; 5; 6]%Q.

Definition example_scale4 : @tensor torch3 :=
  f32 [1; 3; 1; 1] [1 # 10; 2 # 10; 3 # 10]%Q.

Definition example_q4 : @QTensor torch3 :=
  @mk_QTensor torch3 (@mk_wrapper torch3 [2; 3; 1; 1] [3; 1; 1; 1] float32 cpu false)
              qint8 (Some 1%Z) example_data4 example_scale4.

(** Data of rank 2, of another rank than [example_scale4]. *)
Definition example_data2 : @tensor torch3 := i8 [2; 3] [1; 2; 3; 4; 5; 6]%Q.

(** A scale with two dimensions of size 2, data of rank 3 on the cpu and on a
    cuda device, and a floating-point base of rank 3. *)
Definition multi_axis_scale : @tensor torch3 := f32 [2; 2] [1; 2; 3; 4]%Q.

Definition rank3_data : @tensor torch3 := i8 [2; 2; 2] [1; 2; 3; 4; 5; 6; 7; 8]%Q.

Definition rank3_data_cuda : @tensor torch3 :=
  @mk_tensor torch3 [2; 2; 2] [4; 2; 1] int8 (cuda 0) [1; 2; 3; 4; 5; 6; 7; 8]%Q.

Definition rank3_base : @tensor torch3 := f32 [2; 2; 2] [1; 2; 3; 4; 5; 6; 7; 8]%Q.

(** Arguments with a QTensor at the top and inside a list, and a keyword
    argument. *)
Definition example_args : list (@pytree torch3) :=
  [Leaf (PyQTensor example_q); PyList [Leaf (PyInt 3); Leaf (PyQTensor example_q)]].

Definition example_args' : list (@pytree torch3) :=
  [Leaf (PyTensor example_deq); PyList [Leaf (PyInt 3); Leaf (PyTensor example_deq)]].

Definition example_kwargs : list (string * @pytree torch3) :=
  [("alpha", Leaf (PyFloat 2))].

(** A callable that returns the arguments it is called with. *)
Definition return_arguments (args : list (@pytree torch3))
    (kwargs : list (string * @pytree torch3))
  : result (list (@pytree torch3) * list (string * @pytree torch3)) :=
  Ok (args, kwargs).

(** ** Dispatch *)

(** A Python callable taking positional and keyword arguments and returning
    an [R]. *)
Definition pycallable `{Host} (R : Type) : Type :=
  list pytree -> list (string * pytree) -> result R.

(** What [__torch_function__] and [__torch_dispatch__] take from torch and
    from [quanto.tensor.func] and [quanto.tensor.ops], whose code is not part
    of this file: the torch functions and the aten operations with the
    overload packet of each, what calling one does, the two registries
    [get_qtensor_func] and [get_qtensor_op_dispatch], which return [None] for
    what is not registered, and the message of the [TypeError] Python raises
    when [None] is unpacked as the keyword arguments of a call, which names
    the callable. *)
Class Registry `{Host} := {
  retval : Type;
  torch_func : Type;
  torch_op : Type;
  op_packet : Type;
  pytype : Type;
  call_func : torch_func -> pycallable retval;
  get_qtensor_func : torch_func -> option (pycallable retval);
  overloadpacket : torch_op -> op_packet;
  call_packet : op_packet -> pycallable retval;
  get_qtensor_op_dispatch : op_packet -> option (pycallable retval);
  none_kwargs_message : pycallable retval -> string
}.

Section Dispatch.
Context `{Registry}.

(** A call of [f] with the positional arguments [args] and the keyword
    arguments [kwargs] unpacked, where [kwargs] may be [None]: unpacking
    [None] as keyword arguments raises a [TypeError]. *)
Definition py_call (f : pycallable retval) (args : list pytree)
    (kwargs : option (list (string * pytree))) : result retval :=
  match kwargs with
  | Some kwargs => f args kwargs
  | None => Raise (TypeError (none_kwargs_message f))
  end.

(** [kwargs or {}] for a [kwargs] that may be [None]. *)
Definition or_empty_dict (kwargs : option (list (string * pytree)))
  : list (string * pytree) :=
  match kwargs with
  | Some (kv :: kwargs') => kv :: kwargs'
  | _ => []
  end.

(** [QTensor.__torch_function__] *)
Definition QTensor__torch_function__ (func : torch_func) (types : list pytype)
    (args : list pytree) (kwargs : option (list (string * pytree))) : result retval :=
  let kwargs := or_empty_dict kwargs in
  (* Look for a func accepting QTensor inputs *)
  let qfunc := get_qtensor_func func in
  match qfunc with
  | Some qfunc => py_call qfunc args (Some kwargs)
  | None =>
      (* Defer to dispatcher to look instead for QTensor operations *)
      py_call (call_func func) args (Some kwargs)
  end.

(** [QTensor.__torch_dispatch__] *)
Definition QTensor__torch_dispatch__ (op : torch_op) (types : list pytype)
    (args : list pytree) (kwargs : option (list (string * pytree))) : result retval :=
  (* Do not use directly op, but rather its overload *)
  let op := overloadpacket op in
  (* Look for a dispatched op accepting QTensor inputs *)
  let qdispatch := get_qtensor_op_dispatch op in
  match qdispatch with
  | Some qdispatch => py_call qdispatch args kwargs
  | None =>
      (* No dispatch available: qfallback *)
      py_call (qfallback (call_packet op)) args kwargs
  end.

End Dispatch.

(** ** Further vocabulary of the properties *)

Section Vocabulary.
Context `{Host}.

(** A storage dtype for the integers from [lo] to [hi]: these are its range,
    and an integer within the range is converted to itself. *)
Definition integer_storage (dt : torch_dtype) (lo hi : Z) : Prop :=
  dtype_info dt = mk_dinfo (inject_Z lo) (inject_Z hi) /\
  (lo <= hi)%Z /\
  forall z : Z, (lo <= z <= hi)%Z -> to_dtype dt (inject_Z z) == inject_Z z.

(** An integer clamped into [lo, hi]. *)
Definition clamp_Z (lo hi z : Z) : Z := Z.max lo (Z.min hi z).

(** No QTensor occurs in the tree. *)
Fixpoint qtensor_free (tree : pytree) : bool :=
  match tree with
  | Leaf (PyQTensor _) => false
  | Leaf _ => true
  | PyTuple items => List.forallb qtensor_free items
  | PyList items => List.forallb qtensor_free items
  | PyDict items => List.forallb (fun kv => qtensor_free (snd kv)) items
  end.

End Vocabulary.

(** ** A registry to run the dispatch on *)

(** Two aten operations, overloads of one packet each. *)
Inductive op2 :=
| add_Tensor
| mul_Tensor.

Inductive packet2 :=
| aten_add
| aten_mul.

(** What the plain operations return here: a tag and the arguments they
    were called with. *)
Definition plain_call (tag : string) : @pycallable torch3 (string * list (@pytree torch3)) :=
  fun args kwargs => Ok (tag, args).

(** A registry with a quantized kernel for [aten.mul] only. *)
Definition registry2 : @Registry torch3 :=
  {| retval := string * list (@pytree torch3);
     torch_func := op2;
     torch_op := op2;
     op_packet := packet2;
     pytype := unit;
     call_func := fun f => plain_call "func";
     get_qtensor_func := fun f => match f with
                                  | mul_Tensor => Some (plain_call "qfunc")
                                  | add_Tensor => None
                                  end;
     overloadpacket := fun o => match o with
                                | add_Tensor => aten_add
                                | mul_Tensor => aten_mul
                                end;
     call_packet := fun p => plain_call "op";
     get_qtensor_op_dispatch := fun p => match p with
                                         | aten_mul => Some (plain_call "qdispatch")
                                         | aten_add => None
                                         end;
     none_kwargs_message :=
       fun f => "plain_call() argument after ** must be a mapping, not NoneType" |}.

(** ** Further example inputs *)

(** A scale along dimension 0 of a base of shape (2, 3), and that base. *)
Definition example_scale_rows : @tensor torch3 := f32 [2; 1] [1 # 10; 1 # 4]%Q.

Definition example_base_rows : @tensor torch3 :=
  f32 [2; 3] [-12; 7 # 2; 127 # 10; 1; -31; 63 # 2]%Q.

(** A 0-dim scale. *)
Definition example_scale0 : @tensor torch3 := f32 [] [1 # 2]%Q.

(** A base with an element beyond what [example_scale0] covers. *)
Definition example_base_wide : @tensor torch3 := f32 [4] [-100; 1 # 4; 3 # 4; 300]%Q.

(** Arguments in which no QTensor occurs. *)
Definition plain_args : list (@pytree torch3) :=
  [Leaf (PyTensor example_base); PyTuple [Leaf PyNone; Leaf (PyStr "mean")]].

(** A base whose second element, divided by the absmax scale 131073/131072
    of the base, falls short of 125.5 by less than half the spacing of
    [float32] there; the scale, the quotient of the base by it in [float32],
    the QTensor the base quantizes to and the tensor that dequantizes to. *)
Definition tie_base : @tensor torch3_ieee :=
  f32_ieee [2] [16646271 # 131072; 16449661 # 131072]%Q.

Definition tie_scale : @tensor torch3_ieee := f32_ieee [] [131073 # 131072]%Q.

Definition tie_quotient : @tensor torch3_ieee := f32_ieee [2] [127; 251 # 2]%Q.

Definition tie_q : @QTensor torch3_ieee :=
  @mk_QTensor torch3_ieee (@mk_wrapper torch3_ieee [2] [1] float32 cpu false)
              qint8_ieee None
              (@mk_tensor torch3_ieee [2] [1] int8 cpu [127; 126]%Q) tie_scale.


(** A base divided by a zero scale, and the QTensor it quantizes to. *)
Definition unit_base : @tensor torch3_ieee := f32_ieee [2] [1; -1]%Q.

Definition zero_scale : @tensor torch3_ieee := f32_ieee [] [0]%Q.

Definition zero_q : @QTensor torch3_ieee :=
  @mk_QTensor torch3_ieee (@mk_wrapper torch3_ieee [2] [1] float32 cpu false)
              qint8_ieee None
              (@mk_tensor torch3_ieee [2] [1] int8 cpu [127; -128]%Q) zero_scale.

(** A base with a scale along its dimension 0; the first element divided by
    its scale is 1.5 - 1/21136650, which [float32] rounds to 1.5. *)
Definition near_tie_base : @tensor torch3_ieee :=
  f32_ieee [2; 1] [15852487 # 268435456; 1]%Q.

Definition near_tie_scale : @tensor torch3_ieee :=
  f32_ieee [2; 1] [10568325 # 268435456; 1 # 2]%Q.

(** A base with one row and a scale with four, which broadcasting expands
    against each other. *)
Definition example_base_row : @tensor torch3 := f32 [1; 3] [1; 2; 3]%Q.

Definition example_scale_col : @tensor torch3 := f32 [4; 1] [1; 2; 4; 8]%Q.

(** * Properties *)

(** ** Rounding and clamping of one element *)

Lemma round_half_even_error (x : Q) :
  (Qabs (inject_Z (round_half_even x) - x) <= 1 # 2)%Q.
Proof.
  unfold round_half_even.
  pose proof (Qfloor_le x) as Hlo.
  pose proof (Qlt_floor x) as Hhi.
  rewrite inject_Z_plus in Hhi. change (inject_Z 1) with 1%Q in Hhi.
  apply Qabs_Qle_condition.
  destruct (Qcompare_spec (x - inject_Z (Qfloor x)) (1 # 2)) as [He | Hl | Hg].
  - destruct (Z.even (Qfloor x));
      [| rewrite inject_Z_plus; change (inject_Z 1) with 1%Q]; lra.
  - lra.
  - rewrite inject_Z_plus. change (inject_Z 1) with 1%Q. lra.
Qed.

Lemma clamp_elt_in_range (lo hi x : Q) :
  (lo <= x)%Q -> (x <= hi)%Q -> clamp_elt lo hi x = x.
Proof.
  intros Hlo Hhi. unfold clamp_elt.
  destruct (Qlt_le_dec x lo) as [Hlt|_]; [lra |].
  destruct (Qlt_le_dec hi x) as [Hlt|_]; [lra | reflexivity].
Qed.

Lemma clamp_elt_below (lo hi x : Q) :
  (lo <= hi)%Q -> (x < lo)%Q -> clamp_elt lo hi x = lo.
Proof.
  intros Hle Hx. unfold clamp_elt.
  destruct (Qlt_le_dec x lo) as [_|Hge]; [| lra].
  destruct (Qlt_le_dec hi lo) as [Hlt|_]; [lra | reflexivity].
Qed.

Lemma clamp_elt_above (lo hi x : Q) :
  (hi < x)%Q -> clamp_elt lo hi x = hi.
Proof.
  intros Hx. unfold clamp_elt.
  destruct (Qlt_le_dec x lo) as [Hlt|Hge].
  - destruct (Qlt_le_dec hi lo) as [_|Hge]; [reflexivity | lra].
  - destruct (Qlt_le_dec hi x) as [_|Hge']; [reflexivity | lra].
Qed.

Lemma clamp_elt_bounds (lo hi x : Q) :
  (lo <= hi)%Q -> (lo <= clamp_elt lo hi x)%Q /\ (clamp_elt lo hi x <= hi)%Q.
Proof.
  intros Hle. unfold clamp_elt.
  destruct (Qlt_le_dec x lo).
  - destruct (Qlt_le_dec hi lo); lra.
  - destruct (Qlt_le_dec hi x); lra.
Qed.

(** ** Flat offsets *)

Lemma numel_cons (d : nat) (s : list nat) : numel (d :: s) = d * numel s.
Proof. reflexivity. Qed.

Lemma length_unravel (s : list nat) (k : nat) : length (unravel s k) = length s.
Proof.
  revert k. induction s as [|d s IH]; intros k; simpl; [reflexivity |].
  now rewrite IH.
Qed.

Lemma ravel_unravel (s : list nat) (k : nat) :
  k < numel s -> ravel s (unravel s k) = k.
Proof.
  revert k. induction s as [|d s IH]; intros k Hk; simpl in *.
  - lia.
  - assert (Hn : numel s <> 0) by (intros E; rewrite E in Hk; lia).
    rewrite IH by (apply Nat.mod_upper_bound; assumption).
    pose proof (Nat.div_mod_eq k (numel s)). lia.
Qed.

Lemma unravel_unit_dims (s : list nat) (k : nat) :
  k < numel s ->
  zip_with (fun d i => if d =? 1 then 0 else i) s (unravel s k) = unravel s k.
Proof.
  revert k. induction s as [|d s IH]; intros k Hk; simpl in *; [reflexivity |].
  assert (Hn : numel s <> 0) by (intros E; rewrite E in Hk; lia).
  rewrite IH by (apply Nat.mod_upper_bound; assumption).
  f_equal.
  destruct (Nat.eqb_spec d 1) as [-> | _]; [| reflexivity].
  symmetry. apply Nat.div_small. lia.
Qed.

Lemma src_offset_self (s : list nat) (k : nat) :
  k < numel s -> src_offset s s k = k.
Proof.
  intros Hk. unfold src_offset, bindex.
  rewrite length_unravel, Nat.sub_diag, drop_0.
  rewrite unravel_unit_dims by assumption.
  now apply ravel_unravel.
Qed.

Lemma src_offset_scalar (rs : list nat) (k : nat) : src_offset [] rs k = 0.
Proof. reflexivity. Qed.

Lemma broadcast_shapes_scalar_r (s : list nat) : broadcast_shapes s [] = Ok s.
Proof.
  unfold broadcast_shapes.
  assert (E : broadcast_rev (rev s) (rev []) = Ok (rev s))
    by (destruct (rev s); reflexivity).
  rewrite E. simpl. now rewrite rev_involutive.
Qed.

Lemma broadcast_shapes_scalar_l (s : list nat) : broadcast_shapes [] s = Ok s.
Proof.
  unfold broadcast_shapes. simpl. now rewrite rev_involutive.
Qed.

Lemma device_eqb_refl (d : torch_device) : device_eqb d d = true.
Proof. destruct d; simpl; [reflexivity | apply Nat.eqb_refl]. Qed.

Lemma nth_map_seq {A : Type} (f : nat -> A) (n k : nat) (d : A) :
  k < n -> nth k (map f (seq 0 n)) d = f k.
Proof.
  intros Hk.
  rewrite (nth_indep _ d (f 0)) by (rewrite length_map, length_seq; assumption).
  rewrite map_nth. rewrite seq_nth by assumption. reflexivity.
Qed.

Lemma nth_map_in_range {A B : Type} (f : A -> B) (l : list A) (k : nat) (d : B) (d' : A) :
  k < length l -> nth k (map f l) d = f (nth k l d').
Proof.
  intros Hk.
  rewrite (nth_indep _ d (f d')) by (rewrite length_map; assumption).
  apply map_nth.
Qed.

Section Properties.
Context `{Host}.

(** ** Host operations *)

Lemma tget_binop (f : torch_dtype -> Q -> Q -> Q) (a b d : tensor) (k : nat) :
  binop f a b = Ok d ->
  k < numel (shape d) ->
  tget d k = f (dtype d) (bget a (shape d) k) (bget b (shape d) k).
Proof.
  unfold binop.
  destruct (binop_device a b) as [dev|]; simpl; [| discriminate].
  destruct (broadcast_shapes (shape a) (shape b)) as [rs|]; simpl; [| discriminate].
  intros [= <-] Hk. simpl in *. unfold tget. simpl.
  now rewrite nth_map_seq by assumption.
Qed.

Lemma length_values_binop (f : torch_dtype -> Q -> Q -> Q) (a b d : tensor) :
  binop f a b = Ok d -> length (values d) = numel (shape d).
Proof.
  unfold binop.
  destruct (binop_device a b) as [dev|]; simpl; [| discriminate].
  destruct (broadcast_shapes (shape a) (shape b)) as [rs|]; simpl; [| discriminate].
  intros [= <-]. simpl. now rewrite length_map, length_seq.
Qed.

Lemma binop_raises_runtime (f : torch_dtype -> Q -> Q -> Q) (a b : tensor) (e : exn) :
  binop f a b = Raise e -> exists msg, e = RuntimeError msg.
Proof.
  unfold binop, binop_device.
  destruct (device_eqb (device a) (device b)); simpl.
  2: destruct ((ndim a =? 0) && device_eqb (device a) cpu); simpl.
  3: destruct ((ndim b =? 0) && device_eqb (device b) cpu); simpl.
  4: intros [= <-]; eauto.
  all: unfold broadcast_shapes;
    generalize (rev (shape a)) as x, (rev (shape b)) as y;
    intros x; induction x as [|n x IH]; intros y; simpl; try discriminate;
    destruct y as [|m y]; simpl; try discriminate;
    specialize (IH y); destruct (broadcast_rev x y) as [r|e']; simpl;
    [ destruct (n =? m); simpl; try discriminate;
      destruct (n =? 1); simpl; try discriminate;
      destruct (m =? 1); simpl; try discriminate;
      intros [= <-]; eauto
    | intros [= <-]; simpl in IH; apply IH; reflexivity ].
Qed.

(** A binary operation on operands on one device whose shapes broadcast. *)
Lemma binop_same_device (f : torch_dtype -> Q -> Q -> Q) (a b : tensor) (rs : list nat) :
  device a = device b ->
  broadcast_shapes (shape a) (shape b) = Ok rs ->
  binop f a b =
    Ok {| shape := rs;
          stride := result_strides (shape a) (stride a) (shape b) (stride b) rs;
          dtype := result_type (dtype a) (ndim a) (dtype b) (ndim b);
          device := device a;
          values := map (fun k => f (result_type (dtype a) (ndim a) (dtype b) (ndim b))
                                    (bget a rs k) (bget b rs k))
                        (seq 0 (numel rs)) |}.
Proof.
  intros Hdev Hs. unfold binop, binop_device.
  rewrite Hdev, device_eqb_refl, Hs. now rewrite <- Hdev.
Qed.

(** A binary operation with a 0-dim operand on the device of the other
    operand keeps the shape of that operand. *)
Lemma binop_scalar_r (f : torch_dtype -> Q -> Q -> Q) (a s : tensor) :
  shape s = [] ->
  device s = device a ->
  binop f a s =
    Ok {| shape := shape a;
          stride := result_strides (shape a) (stride a) (shape s) (stride s) (shape a);
          dtype := result_type (dtype a) (ndim a) (dtype s) 0;
          device := device a;
          values := map (fun k => f (result_type (dtype a) (ndim a) (dtype s) 0)
                                    (bget a (shape a) k) (bget s (shape a) k))
                        (seq 0 (numel (shape a))) |}.
Proof.
  intros Hs Hd.
  rewrite (binop_same_device f a s (shape a)).
  - unfold ndim. rewrite Hs. reflexivity.
  - now symmetry.
  - rewrite Hs. apply broadcast_shapes_scalar_r.
Qed.

Lemma binop_scalar_l (f : torch_dtype -> Q -> Q -> Q) (s b : tensor) :
  shape s = [] ->
  device s = device b ->
  binop f s b =
    Ok {| shape := shape b;
          stride := result_strides (shape s) (stride s) (shape b) (stride b) (shape b);
          dtype := result_type (dtype s) 0 (dtype b) (ndim b);
          device := device b;
          values := map (fun k => f (result_type (dtype s) 0 (dtype b) (ndim b))
                                    (bget s (shape b) k) (bget b (shape b) k))
                        (seq 0 (numel (shape b))) |}.
Proof.
  intros Hs Hd.
  rewrite (binop_same_device f s b (shape b)).
  - unfold ndim. rewrite Hs, Hd. reflexivity.
  - assumption.
  - rewrite Hs. apply broadcast_shapes_scalar_l.
Qed.

Lemma binop_inv (f : torch_dtype -> Q -> Q -> Q) (a b d : tensor) :
  binop f a b = Ok d ->
  binop_device a b = Ok (device d) /\
  broadcast_shapes (shape a) (shape b) = Ok (shape d) /\
  dtype d = result_type (dtype a) (ndim a) (dtype b) (ndim b) /\
  stride d = result_strides (shape a) (stride a) (shape b) (stride b) (shape d).
Proof.
  unfold binop.
  destruct (binop_device a b) as [dev|]; simpl; [| discriminate].
  destruct (broadcast_shapes (shape a) (shape b)) as [rs|]; simpl; [| discriminate].
  intros [= <-]. repeat split; reflexivity.
Qed.

Lemma bget_scalar (s : tensor) (rs : list nat) (k : nat) :
  shape s = [] -> bget s rs k = tget s 0.
Proof. intros Hs. unfold bget. now rewrite Hs. Qed.

Lemma bget_self (t : tensor) (k : nat) :
  k < numel (shape t) -> bget t (shape t) k = tget t k.
Proof. intros Hk. unfold bget. now rewrite src_offset_self. Qed.

(** ** The quantizer *)

Lemma tget_quantized (qt : qtype) (d : tensor) (k : nat) :
  let info := dtype_info (qtype_dtype qt) in
  k < length (values d) ->
  tget (tensor_to (torch_clamp (if negb (is_floating_point qt) then torch_round d else d)
                               (imin info) (imax info)) (qtype_dtype qt)) k
  = quantize_elt qt (tget d k).
Proof.
  intros info Hk. unfold tget, quantize_elt. simpl.
  destruct (is_floating_point qt); simpl.
  - rewrite (nth_map_in_range _ _ _ _ 0%Q) by (rewrite length_map; assumption).
    now rewrite (nth_map_in_range _ _ _ _ 0%Q) by assumption.
  - rewrite (nth_map_in_range _ _ _ _ 0%Q) by (rewrite !length_map; assumption).
    rewrite (nth_map_in_range _ _ _ _ 0%Q) by (rewrite length_map; assumption).
    now rewrite (nth_map_in_range _ _ _ _ 0%Q) by assumption.
Qed.

(** The data the quantizer makes of a quotient. *)
Lemma shape_quantized (qt : qtype) (d : tensor) (lo hi : Q) (dt : torch_dtype) :
  shape (tensor_to (torch_clamp (if negb (is_floating_point qt) then torch_round d else d)
                                lo hi) dt) = shape d /\
  device (tensor_to (torch_clamp (if negb (is_floating_point qt) then torch_round d else d)
                                 lo hi) dt) = device d.
Proof. destruct (is_floating_point qt); split; reflexivity. Qed.

(** The quantizer with a scale that passes its checks, or with none. *)
Lemma Quantizer_forward_resolved (ctx : FunctionCtx) (base : tensor) (qt : qtype)
    (scale : option tensor) (resolved : tensor) :
  resolved = match scale with
             | None => absmax_scale base qt
             | Some s => s
             end ->
  ndim resolved = 0 \/
    (nonunit_dims (shape resolved) <= 1 /\ ndim resolved = ndim base) ->
  Quantizer_forward ctx base qt scale
  = (d <- torch_div base resolved;;
     QTensor_construct qt
       (tensor_to (torch_clamp (if negb (is_floating_point qt) then torch_round d else d)
                               (imin (dtype_info (qtype_dtype qt)))
                               (imax (dtype_info (qtype_dtype qt))))
                  (qtype_dtype qt))
       resolved false).
Proof.
  intros -> Hvalid. unfold Quantizer_forward.
  destruct scale as [s|]; [| reflexivity].
  change (ndim (squeeze s)) with (nonunit_dims (shape s)).
  destruct Hvalid as [H0 | [Hone Hrank]].
  - rewrite H0. reflexivity.
  - destruct (0 <? ndim s); [| reflexivity].
    destruct (Nat.ltb_spec 1 (nonunit_dims (shape s))); [lia |].
    rewrite Hrank, Nat.eqb_refl. reflexivity.
Qed.

(** A rounded element that is half a unit from its argument is even. *)
Lemma round_half_even_tie (x : Q) :
  Qabs (inject_Z (round_half_even x) - x) == 1 # 2 ->
  Z.even (round_half_even x) = true.
Proof.
  unfold round_half_even.
  pose proof (Qfloor_le x) as Hlo.
  pose proof (Qlt_floor x) as Hhi.
  rewrite inject_Z_plus in Hhi. change (inject_Z 1) with 1%Q in Hhi.
  destruct (Qcompare_spec (x - inject_Z (Qfloor x)) (1 # 2)) as [He | Hl | Hg].
  - intros _. destruct (Z.even (Qfloor x)) eqn:Ev; [exact Ev |].
    rewrite Z.even_add, Ev. reflexivity.
  - intros Habs. exfalso.
    rewrite Qabs_neg in Habs by lra. lra.
  - intros Habs. exfalso.
    rewrite inject_Z_plus in Habs. change (inject_Z 1) with 1%Q in Habs.
    rewrite Qabs_pos in Habs by lra. lra.
Qed.

(** C1: for a base tensor, a qtype and the resolved scale (the given one, or
    the scalar absmax scale of the base when none is given), once the scale
    has passed validation and the host has divided base by scale with
    broadcasting, the quantizer returns the QTensor constructed from the
    qtype, the data and the scale.  The data has the storage dtype of the
    qtype and the shape and the strides of the host's quotient.  Each of its
    elements is made of the element y of that quotient, the host's quotient of
    the elements of base and scale the broadcast reads, in three steps: y is
    rounded to an integer at most 1/2 away from it, the even one if there are
    two, unless the qtype is floating-point; the result is clamped into
    [info.min, info.max], to info.min below it and to info.max above it; and
    what is left is converted to the storage dtype. *)
Theorem Quantizer_forward_computes (ctx : FunctionCtx) (base : tensor) (qt : qtype)
    (scale : option tensor) (resolved d : tensor) :
  let info := dtype_info (qtype_dtype qt) in
  resolved = match scale with
             | None => absmax_scale base qt
             | Some s => s
             end ->
  ndim resolved = 0 \/
    (nonunit_dims (shape resolved) <= 1 /\ ndim resolved = ndim base) ->
  torch_div base resolved = Ok d ->
  let rounded := if is_floating_point qt then d else torch_round d in
  let data := tensor_to (torch_clamp rounded (imin info) (imax info)) (qtype_dtype qt) in
  Quantizer_forward ctx base qt scale = QTensor_construct qt data resolved false /\
  dtype data = qtype_dtype qt /\
  shape data = shape d /\
  stride data = stride d /\
  broadcast_shapes (shape base) (shape resolved) = Ok (shape d) /\
  dtype d = result_type (dtype base) (ndim base) (dtype resolved) (ndim resolved) /\
  (forall k, k < numel (shape d) ->
     let y := div_elt (dtype d) (bget base (shape d) k) (bget resolved (shape d) k) in
     tget d k = y /\
     exists r c : Q,
       (if is_floating_point qt then r = y
        else exists z : Z,
               r = inject_Z z /\
               (Qabs (r - y) <= 1 # 2)%Q /\
               (Qabs (r - y) == 1 # 2 -> Z.even z = true)) /\
       ((imin info <= imax info)%Q -> (imin info <= c)%Q /\ (c <= imax info)%Q) /\
       ((r < imin info)%Q -> (imin info <= imax info)%Q -> c = imin info) /\
       ((imax info < r)%Q -> c = imax info) /\
       ((imin info <= r)%Q -> (r <= imax info)%Q -> c = r) /\
       tget data k = to_dtype (qtype_dtype qt) c) /\
  (scale = None ->
     ndim resolved = 0 /\
     tget resolved 0
     = Qmax (div_elt (dtype base) (absmax (values base)) (imax info))
            (Zpos eps_num # eps_den)).
Proof.
  intros info Hres Hvalid Hdiv rounded data.
  assert (Hdata : data = tensor_to (torch_clamp (if negb (is_floating_point qt)
                                                 then torch_round d else d)
                                                (imin info) (imax info)) (qtype_dtype qt)).
  { subst data rounded. now destruct (is_floating_point qt). }
  destruct (binop_inv _ _ _ _ Hdiv) as (_ & Hbs & Hdt & _).
  split; [| split; [reflexivity | split; [| split; [| split; [exact Hbs | split;
                                                              [exact Hdt | split]]]]]].
  - rewrite (Quantizer_forward_resolved ctx base qt scale resolved Hres Hvalid).
    rewrite Hdiv. cbn [bind]. fold info. now rewrite <- Hdata.
  - subst data rounded. simpl. now destruct (is_floating_point qt).
  - subst data rounded. simpl. now destruct (is_floating_point qt).
  - intros k Hk y.
    assert (Hy : tget d k = y) by exact (tget_binop _ _ _ _ _ Hdiv Hk).
    split; [exact Hy |].
    pose proof (tget_quantized qt d k) as Hq. cbv zeta in Hq. fold info in Hq.
    rewrite <- Hdata in Hq.
    rewrite Hq by (rewrite (length_values_binop _ _ _ _ Hdiv); assumption).
    rewrite Hy. unfold quantize_elt. fold info.
    set (r := if negb (is_floating_point qt) then inject_Z (round_half_even y) else y).
    exists r, (clamp_elt (imin info) (imax info) r).
    split; [| split; [| split; [| split; [| split]]]].
    + subst r. destruct (is_floating_point qt); [reflexivity |]. cbn [negb].
      exists (round_half_even y).
      split; [reflexivity |].
      split; [apply round_half_even_error | apply round_half_even_tie].
    + apply clamp_elt_bounds.
    + intros Hlt Hle. now apply clamp_elt_below.
    + apply clamp_elt_above.
    + apply clamp_elt_in_range.
    + reflexivity.
  - intros ->. subst resolved. split; reflexivity.
Qed.



(** ** Gradients *)

(** C3: for any upstream gradient gO, the dequantizer's backward returns gO
    unchanged, the quantizer's backward returns gO for base and no gradient
    for qtype and scale, and so the gradient that reaches base through a
    quantize followed by a dequantize is gO itself. *)
Theorem straight_through_gradient (c1 c2 : FunctionCtx) (gO : tensor) :
  Dequantizer_backward c2 gO = gO /\
  Quantizer_backward c1 gO = (Some gO, None, None) /\
  Quantizer_backward c1 (Dequantizer_backward c2 gO) = (Some gO, None, None).
Proof. repeat split. Qed.

(** ** Axis resolution *)

Lemma axis_loop_S (dims : list nat) (n : nat) (ax : option Z) :
  axis_loop dims (S n) ax
  = if negb (nth n dims 0 =? 1) then Some (Z.of_nat n) else axis_loop dims n ax.
Proof.
  unfold axis_loop. rewrite seq_S, fold_left_app. reflexivity.
Qed.

Lemma axis_loop_None (dims : list nat) (n : nat) :
  axis_loop dims n None = None <-> (forall i, i < n -> nth i dims 0 = 1).
Proof.
  induction n as [|n IH].
  - split; [intros _ i Hi; lia | reflexivity].
  - rewrite axis_loop_S.
    destruct (Nat.eqb_spec (nth n dims 0) 1) as [E|E]; simpl.
    + rewrite IH. split; intros Hall i Hi.
      * destruct (Nat.eq_dec i n) as [-> |]; [assumption | apply Hall; lia].
      * apply Hall. lia.
    + split; [discriminate |]. intros Hall. exfalso. apply E, Hall. lia.
Qed.

Lemma axis_loop_Some (dims : list nat) (n : nat) (a : Z) :
  axis_loop dims n None = Some a ->
  exists i, a = Z.of_nat i /\ i < n /\ nth i dims 0 <> 1.
Proof.
  induction n as [|n IH].
  - discriminate.
  - rewrite axis_loop_S.
    destruct (Nat.eqb_spec (nth n dims 0) 1) as [E|E]; simpl.
    + intros Ha. destruct (IH Ha) as (i & -> & Hi & Hn).
      exists i. repeat split; [lia | assumption].
    + intros [= <-]. exists n. repeat split; [lia | assumption].
Qed.

Lemma nonunit_dims_cons (d : nat) (s : list nat) :
  nonunit_dims (d :: s) = (if d =? 1 then 0 else 1) + nonunit_dims s.
Proof. unfold nonunit_dims. simpl. now destruct (d =? 1). Qed.

Lemma nonunit_dims_le (s : list nat) : nonunit_dims s <= length s.
Proof.
  induction s as [|d s IH]; [reflexivity |].
  rewrite nonunit_dims_cons. simpl. destruct (d =? 1); lia.
Qed.

Lemma nonunit_dims_pos (s : list nat) (i : nat) :
  i < length s -> nth i s 0 <> 1 -> 1 <= nonunit_dims s.
Proof.
  revert i. induction s as [|d s IH]; intros i Hi Hn; simpl in Hi; [lia |].
  rewrite nonunit_dims_cons.
  destruct i as [|i]; simpl in Hn.
  - destruct (Nat.eqb_spec d 1); [contradiction | lia].
  - assert (1 <= nonunit_dims s) by (apply (IH i); [lia | assumption]). lia.
Qed.

Lemma nonunit_dims_zero (s : list nat) :
  (forall i, i < length s -> nth i s 0 = 1) -> nonunit_dims s = 0.
Proof.
  intros Hall.
  destruct (Nat.eq_dec (nonunit_dims s) 0) as [|Hne]; [assumption | exfalso].
  assert (Hex : exists i, i < length s /\ nth i s 0 <> 1).
  { clear Hall. induction s as [|d s IH]; [now contradict Hne |].
    rewrite nonunit_dims_cons in Hne.
    destruct (Nat.eqb_spec d 1) as [-> | Hd].
    - destruct IH as (i & Hi & Hn); [exact Hne |].
      exists (S i). simpl. split; [lia | assumption].
    - exists 0. simpl. split; [lia | assumption]. }
  destruct Hex as (i & Hi & Hn). apply Hn, Hall, Hi.
Qed.

Lemma nonunit_unique (s : list nat) (i j : nat) :
  nonunit_dims s <= 1 ->
  i < length s -> j < length s ->
  nth i s 0 <> 1 -> nth j s 0 <> 1 ->
  i = j.
Proof.
  revert i j. induction s as [|d s IH]; intros i j Hle Hi Hj Hni Hnj;
    simpl in Hi, Hj; [lia |].
  rewrite nonunit_dims_cons in Hle.
  destruct i as [|i], j as [|j]; simpl in Hni, Hnj.
  - reflexivity.
  - destruct (Nat.eqb_spec d 1); [contradiction |].
    pose proof (nonunit_dims_pos s j ltac:(lia) Hnj). lia.
  - destruct (Nat.eqb_spec d 1); [contradiction |].
    pose proof (nonunit_dims_pos s i ltac:(lia) Hni). lia.
  - f_equal. apply IH; try assumption; try (destruct (d =? 1); lia).
Qed.

Lemma ndim_squeeze (t : tensor) : ndim (squeeze t) = nonunit_dims (shape t).
Proof. reflexivity. Qed.

(** The cases of a successful construction. *)
Lemma QTensor_construct_inv (qt : qtype) (data scale : tensor) (rg : bool) (q : QTensor) :
  QTensor_construct qt data scale rg = Ok q ->
  device_eqb (device data) (device scale) = true /\
  outer q = mk_wrapper (shape data) (stride data) (dtype scale) (device data) rg /\
  _qtype q = qt /\
  _data q = data /\
  ((ndim scale = 0 /\ _axis q = None /\ _scale q = scale) \/
   (0 < ndim scale /\ nonunit_dims (shape scale) <= 1 /\ ndim scale = ndim data /\
    ((axis_loop (shape scale) (ndim scale) None = None /\
      _axis q = None /\ _scale q = squeeze scale) \/
     (exists a, axis_loop (shape scale) (ndim scale) None = Some a /\
                _scale q = scale /\
                _axis q = Some (if (a =? Z.of_nat (ndim scale) - 1)%Z
                                then (-1)%Z else a))))).
Proof.
  unfold QTensor_construct, QTensor__new__, QTensor__init__.
  destruct (device_eqb (device data) (device scale)); simpl; [| discriminate].
  rewrite ndim_squeeze.
  destruct (Nat.ltb_spec 0 (ndim scale)) as [Hpos|Hzero].
  - destruct (Nat.ltb_spec 1 (nonunit_dims (shape scale))) as [|Hone]; [discriminate |].
    destruct (Nat.eqb_spec (ndim scale) (ndim data)) as [Heq|]; simpl; [| discriminate].
    destruct (axis_loop (shape scale) (ndim scale) None) as [a|] eqn:Hloop.
    + destruct (a =? Z.of_nat (ndim scale) - 1)%Z eqn:Hlast;
        intros [= <-]; simpl; repeat split; right; repeat split; try assumption;
        right; exists a; rewrite Hlast; repeat split.
    + intros [= <-]; simpl; repeat split; right; repeat split; try assumption.
      left. repeat split.
  - intros [= <-]; simpl; repeat split. left. repeat split. lia.
Qed.

(** C4: a construction with a non-scalar scale that succeeds resolves the
    axis as follows. A dimension of the scale whose size is not 1 is the only
    such dimension, the scale is stored as it is, and the axis is the index of
    that dimension, or -1 when that index is rank - 1. When every dimension
    has size 1, the stored scale is the squeezed scale, of rank 0, and the
    axis is none. *)
Theorem axis_resolution (qt : qtype) (data scale : tensor) (rg : bool) (q : QTensor) :
  0 < ndim scale ->
  QTensor_construct qt data scale rg = Ok q ->
  (forall i, i < ndim scale -> nth i (shape scale) 0 <> 1 ->
     (forall j, j < ndim scale -> nth j (shape scale) 0 <> 1 -> j = i) /\
     _scale q = scale /\
     axis q = Some (if i =? ndim data - 1 then (-1)%Z else Z.of_nat i)) /\
  ((forall i, i < ndim scale -> nth i (shape scale) 0 = 1) ->
     axis q = None /\ _scale q = squeeze scale /\ ndim (_scale q) = 0).
Proof.
  intros Hpos Hq.
  destruct (QTensor_construct_inv _ _ _ _ _ Hq) as (_ & _ & _ & _ & Hcases).
  destruct Hcases as [(H0 & _) | (_ & Hone & Hrank & Hcases)]; [lia |].
  split.
  - intros i Hi Hni.
    split; [intros j Hj Hnj; now apply (nonunit_unique (shape scale)) |].
    destruct Hcases as [(Hnone & _) | (a & Hsome & Hs & Ha)].
    + exfalso. apply Hni. now apply (proj1 (axis_loop_None _ _) Hnone).
    + split; [assumption |]. unfold axis. rewrite Ha. f_equal.
      destruct (axis_loop_Some _ _ _ Hsome) as (i0 & -> & Hi0 & Hni0).
      assert (i0 = i) by now apply (nonunit_unique (shape scale)).
      subst i0. rewrite <- Hrank.
      destruct (Z.eqb_spec (Z.of_nat i) (Z.of_nat (ndim scale) - 1)),
               (Nat.eqb_spec i (ndim scale - 1)); try reflexivity; lia.
  - intros Hall.
    destruct Hcases as [(_ & Hax & Hs) | (a & Hsome & _)].
    + repeat split; try assumption.
      rewrite Hs, ndim_squeeze. now apply nonunit_dims_zero.
    + destruct (axis_loop_Some _ _ _ Hsome) as (i & _ & Hi & Hni).
      exfalso. now apply Hni, Hall.
Qed.

(** C9: every successful construction leaves the stored axis either none,
    with a stored scale of rank 0, or an integer that is -1 or lies between 0
    and rank - 2 of the data, so that a nonnegative axis is never rank - 1;
    and when the axis is not none the stored scale has the rank of the data
    and exactly one dimension whose size is not 1. *)
Theorem axis_invariant (qt : qtype) (data scale : tensor) (rg : bool) (q : QTensor) :
  QTensor_construct qt data scale rg = Ok q ->
  match axis q with
  | None => ndim (_scale q) = 0
  | Some a =>
      (a = (-1)%Z \/ (0 <= a <= Z.of_nat (ndim (_data q)) - 2)%Z) /\
      ((0 <= a)%Z -> a <> (Z.of_nat (ndim (_data q)) - 1)%Z) /\
      ndim (_scale q) = ndim (_data q) /\
      nonunit_dims (shape (_scale q)) = 1
  end.
Proof.
  intros Hq.
  destruct (QTensor_construct_inv _ _ _ _ _ Hq) as (_ & _ & _ & Hd & Hcases).
  unfold axis. rewrite Hd.
  destruct Hcases as [(H0 & -> & ->) | (Hpos & Hone & Hrank & Hcases)];
    [assumption |].
  destruct Hcases as [(Hnone & -> & ->) | (a & Hsome & -> & ->)].
  - rewrite ndim_squeeze. apply nonunit_dims_zero.
    now apply (proj1 (axis_loop_None _ _)).
  - destruct (axis_loop_Some _ _ _ Hsome) as (i & -> & Hi & Hni).
    pose proof (nonunit_dims_pos _ _ Hi Hni) as Hge.
    rewrite <- Hrank.
    destruct (Z.eqb_spec (Z.of_nat i) (Z.of_nat (ndim scale) - 1));
      repeat split; try lia.
Qed.

(** ** Rejected inputs *)

(** C5 (as the code has it): the checks run in a fixed order.  The constructor
    first asserts that data and scale are on one device; then a scale with two
    or more dimensions of size other than 1 raises the multiple-axis error;
    then a non-scalar scale with at most one such dimension whose rank is not
    the rank of the data raises the not-broadcastable error.  The quantizer,
    given a scale, makes the same two shape checks in the same order before
    anything else. *)
Theorem rejection_order (ctx : FunctionCtx) (qt : qtype) (data scale : tensor) (rg : bool) :
  (device_eqb (device data) (device scale) = false ->
   QTensor_construct qt data scale rg = Raise AssertionError) /\
  (device_eqb (device data) (device scale) = true ->
   1 < nonunit_dims (shape scale) ->
   QTensor_construct qt data scale rg
   = Raise (ValueError "QTensor cannot be quantized along multiple axis.")) /\
  (device_eqb (device data) (device scale) = true ->
   0 < ndim scale ->
   nonunit_dims (shape scale) <= 1 ->
   ndim scale <> ndim data ->
   QTensor_construct qt data scale rg
   = Raise (ValueError "The QTensor scale must be broadcastable to the base (Tip: try to add missing dims of length zero).")) /\
  (1 < nonunit_dims (shape scale) ->
   Quantizer_forward ctx data qt (Some scale)
   = Raise (ValueError "Quantizing along multiple axis is not supported")) /\
  (0 < ndim scale ->
   nonunit_dims (shape scale) <= 1 ->
   ndim scale <> ndim data ->
   Quantizer_forward ctx data qt (Some scale)
   = Raise (ValueError "When quantizing per-axis, the scale must be broadcastable to the base (Tip: try to add missing dims of length zero).")).
Proof.
  pose proof (nonunit_dims_le (shape scale)) as Hle. fold (ndim scale) in Hle.
  unfold QTensor_construct, QTensor__new__, QTensor__init__, Quantizer_forward.
  rewrite ndim_squeeze.
  repeat split.
  - intros ->. reflexivity.
  - intros -> Hmulti. simpl.
    destruct (Nat.ltb_spec 0 (ndim scale)); [| lia].
    destruct (Nat.ltb_spec 1 (nonunit_dims (shape scale))); [reflexivity | lia].
  - intros -> Hpos Hone Hrank. simpl.
    destruct (Nat.ltb_spec 0 (ndim scale)); [| lia].
    destruct (Nat.ltb_spec 1 (nonunit_dims (shape scale))); [lia |].
    destruct (Nat.eqb_spec (ndim scale) (ndim data)); [contradiction | reflexivity].
  - intros Hmulti.
    destruct (Nat.ltb_spec 0 (ndim scale)); [| lia].
    destruct (Nat.ltb_spec 1 (nonunit_dims (shape scale))); [reflexivity | lia].
  - intros Hpos Hone Hrank.
    destruct (Nat.ltb_spec 0 (ndim scale)); [| lia].
    destruct (Nat.ltb_spec 1 (nonunit_dims (shape scale))); [lia |].
    destruct (Nat.eqb_spec (ndim scale) (ndim data)); [contradiction | reflexivity].
Qed.

(** ** The dequantizer *)

(** C6: the dequantizer returns the host's product of the scale with the data,
    the data first converted to the dtype of the scale when the qtype is
    floating-point and left as it is otherwise, the dtype of the product being
    the host's promotion of the two; each element of the result is the
    host's product, in that dtype, of the elements the broadcast reads.  The
    dequantizer checks nothing itself: it raises only what the host's
    multiplication raises. *)
Theorem Dequantizer_forward_computes (ctx : FunctionCtx) (q : QTensor) :
  let operand := if is_floating_point (_qtype q)
                 then tensor_to (_data q) (dtype (_scale q))
                 else _data q in
  Dequantizer_forward ctx q = torch_mul (_scale q) operand /\
  (is_floating_point (_qtype q) = true ->
   dtype operand = dtype (_scale q) /\
   values operand = map (to_dtype (dtype (_scale q))) (values (_data q))) /\
  (forall d, Dequantizer_forward ctx q = Ok d ->
     dtype d = result_type (dtype (_scale q)) (ndim (_scale q))
                           (dtype operand) (ndim operand) /\
     forall k, k < numel (shape d) ->
       tget d k = mul_elt (dtype d) (bget (_scale q) (shape d) k)
                                    (bget operand (shape d) k)) /\
  (forall e, Dequantizer_forward ctx q = Raise e -> exists msg, e = RuntimeError msg).
Proof.
  intros operand.
  assert (Heq : Dequantizer_forward ctx q = torch_mul (_scale q) operand).
  { unfold Dequantizer_forward. subst operand.
    now destruct (is_floating_point (_qtype q)). }
  split; [exact Heq |]. rewrite Heq. split; [| split].
  - intros Hfp. subst operand. rewrite Hfp. split; reflexivity.
  - intros d Hd. split.
    + revert Hd. unfold torch_mul, binop.
      destruct (binop_device (_scale q) operand); simpl; [| discriminate].
      destruct (broadcast_shapes (shape (_scale q)) (shape operand)); simpl;
        [| discriminate].
      now intros [= <-].
    + intros k Hk. exact (tget_binop _ _ _ _ _ Hd Hk).
  - intros e He. exact (binop_raises_runtime _ _ _ _ He).
Qed.

(** ** Flattening and unflattening *)

(** Constructing again from the stored parts of a constructed QTensor gives
    the same QTensor, not requiring a gradient. *)
Lemma QTensor_reconstruct (qt : qtype) (data scale : tensor) (rg : bool) (q : QTensor) :
  QTensor_construct qt data scale rg = Ok q ->
  QTensor_construct (_qtype q) (_data q) (_scale q) false
  = Ok (mk_QTensor (mk_wrapper (w_size (outer q)) (w_strides (outer q))
                               (w_dtype (outer q)) (w_device (outer q)) false)
                   (_qtype q) (_axis q) (_data q) (_scale q)).
Proof.
  intros Hq.
  destruct (QTensor_construct_inv _ _ _ _ _ Hq) as (Hdev & Ho & Hqt & Hd & Hcases).
  destruct q as [o qt' ax d' s']. simpl in *. subst o qt' d'.
  unfold QTensor_construct, QTensor__new__, QTensor__init__. simpl.
  destruct Hcases as [(H0 & -> & ->) | (Hpos & Hone & Hrank & Hcases)].
  - rewrite Hdev, H0. reflexivity.
  - destruct Hcases as [(Hnone & -> & ->) | (a & Hsome & -> & ->)].
    + simpl. rewrite Hdev. simpl.
      assert (Hz : ndim (squeeze scale) = 0).
      { rewrite ndim_squeeze. apply nonunit_dims_zero.
        now apply (proj1 (axis_loop_None _ _)). }
      rewrite Hz. reflexivity.
    + rewrite Hdev, ndim_squeeze. simpl.
      destruct (Nat.ltb_spec 0 (ndim scale)); [| lia].
      destruct (Nat.ltb_spec 1 (nonunit_dims (shape scale))); [lia |].
      rewrite Hrank, Nat.eqb_refl. simpl. rewrite <- Hrank, Hsome.
      now destruct (a =? Z.of_nat (ndim scale) - 1)%Z.
Qed.

Lemma inner_tensors_of_flatten (q : QTensor) :
  inner_tensors_of q ["_data"; "_scale"]
  = <[ "_data" := _data q ]> (<[ "_scale" := _scale q ]> ∅).
Proof. reflexivity. Qed.

Lemma size_inner_tensors_of_flatten (q : QTensor) :
  size (inner_tensors_of q ["_data"; "_scale"]) = 2.
Proof.
  rewrite inner_tensors_of_flatten.
  rewrite map_size_insert_None.
  - now rewrite map_size_insert_None, map_size_empty by apply lookup_empty.
  - rewrite lookup_insert_ne by discriminate. apply lookup_empty.
Qed.

(** C7: flattening any QTensor yields the two names _data and _scale and the
    single metadata entry qtype; for a valid QTensor, one the constructor
    returned, unflattening the mapping built from them reconstructs a QTensor
    with the same data, scale, qtype and axis (the same QTensor altogether
    when it does not require a gradient); and unflattening raises an assertion
    error when the mapping does not have exactly two entries or the metadata
    does not have exactly one. *)
Theorem flatten_unflatten_roundtrip (q : QTensor) :
  let names := fst (QTensor__tensor_flatten__ q) in
  let meta := snd (QTensor__tensor_flatten__ q) in
  names = ["_data"; "_scale"] /\
  size (inner_tensors_of q names) = 2 /\
  size meta = 1 /\
  meta !! "qtype" = Some (_qtype q) /\
  (QTensor_valid q ->
   forall outer_size outer_stride : list nat,
     exists q',
       QTensor__tensor_unflatten__ (inner_tensors_of q names) meta
                                   outer_size outer_stride = Ok q' /\
       _data q' = _data q /\
       _scale q' = _scale q /\
       _qtype q' = _qtype q /\
       axis q' = axis q /\
       (w_requires_grad (outer q) = false -> q' = q)) /\
  (forall (inner : gmap string tensor) (meta' : gmap string qtype)
          (outer_size outer_stride : list nat),
     size inner <> 2 \/ size meta' <> 1 ->
     QTensor__tensor_unflatten__ inner meta' outer_size outer_stride
     = Raise AssertionError).
Proof.
  intros names meta.
  subst names meta. cbv [QTensor__tensor_flatten__ fst snd].
  split; [reflexivity |].
  split; [apply size_inner_tensors_of_flatten |].
  split; [apply map_size_singleton |].
  split; [apply lookup_singleton_eq |].
  split.
  - intros (qt & data & scale & rg & Hq) outer_size outer_stride.
    eexists. split.
    + unfold QTensor__tensor_unflatten__.
      rewrite size_inner_tensors_of_flatten, map_size_singleton.
      cbn [Nat.eqb py_assert bind].
      rewrite inner_tensors_of_flatten. unfold getitem.
      rewrite lookup_insert_eq. cbn [bind].
      rewrite lookup_insert_ne by discriminate.
      rewrite lookup_insert_eq. cbn [bind].
      rewrite lookup_singleton_eq. cbn [bind].
      exact (QTensor_reconstruct _ _ _ _ _ Hq).
    + simpl. repeat split.
      destruct q as [[sz st dt dev rg'] qt' ax d' s']. simpl.
      now intros ->.
  - intros inner meta' outer_size outer_stride Hbad.
    unfold QTensor__tensor_unflatten__.
    destruct (Nat.eqb_spec (size inner) 2) as [E2|]; simpl; [| reflexivity].
    destruct (Nat.eqb_spec (size meta') 1) as [E1|]; simpl; [| reflexivity].
    destruct Hbad; contradiction.
Qed.

(** C10: unflattening does not read the expected outer size and stride: any
    two values of them give the same result for the same inner tensors and
    metadata, and the outer size and strides of a reconstructed QTensor are
    those of the data tensor supplied, never compared with the expected
    ones. *)
Theorem unflatten_ignores_outer (inner : gmap string tensor) (meta : gmap string qtype)
    (size1 stride1 size2 stride2 : list nat) :
  QTensor__tensor_unflatten__ inner meta size1 stride1
  = QTensor__tensor_unflatten__ inner meta size2 stride2 /\
  (forall q, QTensor__tensor_unflatten__ inner meta size1 stride1 = Ok q ->
     exists data, inner !! "_data" = Some data /\
                  _data q = data /\
                  w_size (outer q) = shape data /\
                  w_strides (outer q) = stride data).
Proof.
  split; [reflexivity |].
  intros q. unfold QTensor__tensor_unflatten__, getitem.
  destruct (size inner =? 2); simpl; [| discriminate].
  destruct (size meta =? 1); simpl; [| discriminate].
  destruct (inner !! "_data") as [data|]; simpl; [| discriminate].
  destruct (inner !! "_scale") as [scale|]; simpl; [| discriminate].
  destruct (meta !! "qtype") as [qt|]; simpl; [| discriminate].
  intros Hq.
  destruct (QTensor_construct_inv _ _ _ _ _ Hq) as (_ & Ho & _ & Hd & _).
  exists data. rewrite Ho, Hd. repeat split.
Qed.

(** ** qfallback *)

Lemma pytree_ind (P : pytree -> Prop) :
  (forall v, P (Leaf v)) ->
  (forall items, Forall P items -> P (PyTuple items)) ->
  (forall items, Forall P items -> P (PyList items)) ->
  (forall items, Forall (fun kv => P (snd kv)) items -> P (PyDict items)) ->
  forall tree, P tree.
Proof.
  intros Hleaf Htuple Hlist Hdict.
  fix IH 1. intros [v | items | items | items].
  - apply Hleaf.
  - apply Htuple. induction items as [|x xs IHxs]; constructor; [apply IH | exact IHxs].
  - apply Hlist. induction items as [|x xs IHxs]; constructor; [apply IH | exact IHxs].
  - apply Hdict. induction items as [|[k x] xs IHxs]; constructor; [apply IH | exact IHxs].
Qed.

Lemma mapM_Ok_iff {A B : Type} (f : A -> result B) (l : list A) (l' : list B) :
  mapM f l = Ok l' <-> Forall2 (fun x y => f x = Ok y) l l'.
Proof.
  revert l'. induction l as [|x l IH]; intros l'; simpl.
  - split.
    + intros [= <-]. constructor.
    + intros Hall. now inversion Hall.
  - split.
    + destruct (f x) as [y|] eqn:Hx; simpl; [| discriminate].
      destruct (mapM f l) as [ys|] eqn:Hl; simpl; [| discriminate].
      intros [= <-]. constructor; [assumption | now apply IH].
    + intros Hall. inversion Hall as [| ? y ? ys Hx Hl]; subst.
      rewrite Hx. simpl. apply IH in Hl. rewrite Hl. reflexivity.
Qed.

Lemma Forall2_impl_Forall {A B : Type} (P Q : A -> B -> Prop) (l : list A) (l' : list B) :
  Forall (fun x => forall y, P x y -> Q x y) l ->
  Forall2 P l l' ->
  Forall2 Q l l'.
Proof.
  intros HF H2. induction H2 as [|x y l l' Hxy Hl IH].
  - constructor.
  - inversion HF as [|? ? Hx Hrest]; subst. constructor; [now apply Hx | now apply IH].
Qed.

(** [tree_map_only] with the dequantizer returns a tree exactly when that tree
    is the argument with its QTensors dequantized. *)
Lemma tree_map_only_dequantized (tree : pytree) :
  forall tree',
    tree_map_only QTensor_dequantize tree = Ok tree' <-> dequantized tree tree'.
Proof.
  induction tree as [v | items IH | items IH | items IH] using pytree_ind;
    intros tree'.
  - split.
    + destruct v; simpl; try (intros [= <-]; now constructor).
      destruct (QTensor_dequantize q) as [t|] eqn:Hq; simpl; [| discriminate].
      intros [= <-]. now constructor.
    + intros Hd. inversion Hd as [q t Hq | v' Hv | | |]; subst; simpl.
      * now rewrite Hq.
      * destruct v; try reflexivity. now contradiction (Hv q).
  - simpl. split.
    + destruct (mapM _ items) as [items'|] eqn:Hm; simpl; [| discriminate].
      intros [= <-]. constructor.
      apply mapM_Ok_iff in Hm.
      eapply Forall2_impl_Forall; [| exact Hm].
      eapply Forall_impl; [exact IH |]. intros x Hx y. apply Hx.
    + intros Hd. inversion Hd as [| | ? items' Hall | |]; subst.
      assert (Hm : mapM (tree_map_only QTensor_dequantize) items = Ok items').
      { apply mapM_Ok_iff.
        eapply Forall2_impl_Forall; [| exact Hall].
        eapply Forall_impl; [exact IH |]. intros x Hx y. apply Hx. }
      now rewrite Hm.
  - simpl. split.
    + destruct (mapM _ items) as [items'|] eqn:Hm; simpl; [| discriminate].
      intros [= <-]. constructor.
      apply mapM_Ok_iff in Hm.
      eapply Forall2_impl_Forall; [| exact Hm].
      eapply Forall_impl; [exact IH |]. intros x Hx y. apply Hx.
    + intros Hd. inversion Hd as [| | | ? items' Hall |]; subst.
      assert (Hm : mapM (tree_map_only QTensor_dequantize) items = Ok items').
      { apply mapM_Ok_iff.
        eapply Forall2_impl_Forall; [| exact Hall].
        eapply Forall_impl; [exact IH |]. intros x Hx y. apply Hx. }
      now rewrite Hm.
  - simpl. split.
    + destruct (mapM _ items) as [items'|] eqn:Hm; simpl; [| discriminate].
      intros [= <-]. constructor.
      apply mapM_Ok_iff in Hm.
      eapply Forall2_impl_Forall; [| exact Hm].
      eapply Forall_impl; [exact IH |].
      intros [k x] Hx [k' y] Hxy. simpl in *.
      destruct (tree_map_only QTensor_dequantize x) as [x'|] eqn:Ex; simpl in Hxy;
        [| discriminate].
      injection Hxy as <- <-. split; [reflexivity | now apply Hx].
    + intros Hd. inversion Hd as [| | | | ? items' Hall]; subst.
      match goal with |- bind ?m _ = _ => assert (Hm : m = Ok items') end.
      { apply mapM_Ok_iff.
        eapply Forall2_impl_Forall; [| exact Hall].
        eapply Forall_impl; [exact IH |].
        intros [k x] Hx [k' y] [Hk Hxy]. simpl in *. subst k'.
        apply Hx in Hxy. now rewrite Hxy. }
      now rewrite Hm.
Qed.

Lemma or_empty_id (kwargs : list (string * pytree)) : or_empty kwargs = kwargs.
Proof. now destruct kwargs. Qed.

(** C8: qfallback calls the callable on the positional and keyword arguments
    in which every QTensor, at any depth, is replaced by the tensor it
    dequantizes to and every other argument is unchanged, and returns what the
    callable returns; a result of qfallback is always the result of the
    callable on such arguments. *)
Theorem qfallback_dequantizes {R : Type}
    (callable : list pytree -> list (string * pytree) -> result R)
    (args : list pytree) (kwargs : list (string * pytree)) :
  (forall args' kwargs',
     Forall2 dequantized args args' ->
     Forall2 (fun kv kv' => fst kv = fst kv' /\ dequantized (snd kv) (snd kv'))
             kwargs kwargs' ->
     qfallback callable args kwargs = callable args' kwargs') /\
  (forall r, qfallback callable args kwargs = Ok r ->
     exists args' kwargs',
       Forall2 dequantized args args' /\
       Forall2 (fun kv kv' => fst kv = fst kv' /\ dequantized (snd kv) (snd kv'))
               kwargs kwargs' /\
       callable args' kwargs' = Ok r).
Proof.
  unfold qfallback. rewrite or_empty_id. split.
  - intros args' kwargs' Hargs Hkwargs.
    assert (Hm : tree_map_only QTensor_dequantize (PyTuple [PyTuple args; PyDict kwargs])
                 = Ok (PyTuple [PyTuple args'; PyDict kwargs'])).
    { apply tree_map_only_dequantized.
      repeat constructor; assumption. }
    rewrite Hm. reflexivity.
  - intros r.
    destruct (tree_map_only _ _) as [mapped|] eqn:Hm; simpl; [| discriminate].
    apply tree_map_only_dequantized in Hm.
    inversion Hm as [| | ? items' Hall | |]; subst.
    inversion Hall as [| ? a' ? l1 Ha Hrest]; subst.
    inversion Hrest as [| ? k' ? l2 Hk Hnil]; subst.
    inversion Hnil; subst.
    inversion Ha as [| | ? args' Hargs | |]; subst.
    inversion Hk as [| | | | ? kwargs' Hkwargs]; subst.
    intros Hcall. exists args', kwargs'. repeat split; assumption.
Qed.

(** ** What a constructed or quantized tensor shows *)

(** A successful construction had data and scale on one device, and the
    QTensor shows the size, strides and device of the data and the dtype of
    the scale, and keeps the qtype and the data it was given. *)
Theorem QTensor_public_attributes (qt : qtype) (data scale : tensor) (rg : bool)
    (q : QTensor) :
  QTensor_construct qt data scale rg = Ok q ->
  device data = device scale /\
  w_size (outer q) = shape data /\
  w_strides (outer q) = stride data /\
  w_dtype (outer q) = dtype scale /\
  w_device (outer q) = device data /\
  w_requires_grad (outer q) = rg /\
  qtype_of q = qt /\
  _data q = data.
Proof.
  intros Hq.
  destruct (QTensor_construct_inv _ _ _ _ _ Hq) as (Hdev & Ho & Hqt & Hd & _).
  rewrite Ho. simpl.
  assert (Heq : device data = device scale).
  { destruct (device data) as [|i], (device scale) as [|j]; simpl in Hdev;
      try discriminate; [reflexivity |].
    apply Nat.eqb_eq in Hdev. now subst. }
  repeat split; assumption.
Qed.

(** The data of a quantized tensor always has the storage dtype of the qtype,
    and without a given scale it has the shape of the base. *)
Theorem quantized_data_dtype (ctx : FunctionCtx) (base : tensor) (qt : qtype)
    (scale : option tensor) (q : QTensor) :
  Quantizer_forward ctx base qt scale = Ok q ->
  dtype (_data q) = qtype_dtype qt /\
  qtype_of q = qt /\
  (scale = None -> shape (_data q) = shape base).
Proof.
  unfold Quantizer_forward. intros Hq.
  destruct (match scale with
            | Some s => _
            | None => Ok (absmax_scale base qt)
            end) as [resolved|] eqn:Hres; simpl in Hq; [| discriminate].
  destruct (torch_div base resolved) as [d|] eqn:Hdiv; simpl in Hq; [| discriminate].
  destruct (QTensor_construct_inv _ _ _ _ _ Hq) as (_ & _ & Hqt & Hd & _).
  rewrite Hd. split; [reflexivity |]. split; [exact Hqt |].
  intros ->. injection Hres as <-.
  unfold torch_div in Hdiv.
  rewrite (binop_scalar_r div_elt base (absmax_scale base qt) eq_refl eq_refl) in Hdiv.
  injection Hdiv as <-. simpl. now destruct (is_floating_point qt).
Qed.

End Properties.

(** * The properties on the example host *)

Lemma Qtrunc_inject_Z (z : Z) : Qtrunc (inject_Z z) = z.
Proof.
  unfold Qtrunc. destruct (Qlt_le_dec (inject_Z z) 0).
  - apply Qceiling_Z.
  - apply Qfloor_Z.
Qed.

(** The worked example of the specification, on the host with exact
    arithmetic: base [-5, 0, 5] quantized to int8 without a scale. *)
Example quantize_worked_example :
  Quantizer_forward tt example_base qint8 None = Ok example_q /\
  Dequantizer_forward tt example_q = Ok example_deq /\
  Forall2 Qeq (values example_deq) (values example_base).
Proof.
  split; [reflexivity |]. split; [reflexivity |].
  repeat constructor.
Qed.

(** A value beyond the range of the qtype is clamped to its bound: 300 / 0.5
    is stored as 127 by [qint8] and as 448 by the 8-bit floating qtype, which
    does not round 0.3 / 0.5 to an integer and stores it with 4 bits of
    precision, as 0.625. *)
Example quantize_clamps :
  (q <- Quantizer_forward tt (f32 [2] [1; 300]%Q) qint8 (Some (f32 [] [1 # 2]%Q));;
   Ok (values (_data q), dtype (_data q)))
  = Ok ([2; 127]%Q, int8) /\
  (q <- Quantizer_forward tt (f32 [2] [3 # 10; 300]%Q) qfloat8 (Some (f32 [] [1 # 2]%Q));;
   Ok (values (_data q), dtype (_data q)))
  = Ok ([5 # 8; 448]%Q, float8_e4m3fn).
Proof. split; reflexivity. Qed.

(** A scale of shape (1, 1) is stored as a scalar, and a scale along the last
    dimension gets the axis -1. *)
Example axis_examples :
  (q <- QTensor_construct qint8 example_data2 (f32 [1; 1] [1 # 2]%Q) false;;
   Ok (axis q, shape (_scale q)))
  = Ok (None, []) /\
  (q <- QTensor_construct qint8 example_data2 (f32 [1; 3] [1; 2; 3]%Q) false;;
   Ok (axis q, shape (_scale q)))
  = Ok (Some (-1)%Z, [1; 3]).
Proof. split; reflexivity. Qed.

Lemma Quantizer_forward_computes_witness :
  torch_div tie_base (absmax_scale tie_base qint8_ieee) = Ok tie_quotient /\
  Quantizer_forward tt tie_base qint8_ieee None = Ok tie_q /\
  stride (_data tie_q) = stride tie_quotient /\
  tget tie_quotient 1 = ieee_div float32 (tget tie_base 1) (tget tie_scale 0) /\
  exists c : Q, (-128 <= c)%Q /\ (c <= 127)%Q /\ tget (_data tie_q) 1 = dt3_to int8 c.
Proof.
  assert (Hdiv : torch_div tie_base (absmax_scale tie_base qint8_ieee)
                 = Ok tie_quotient) by reflexivity.
  destruct (Quantizer_forward_computes tt tie_base qint8_ieee None
              (absmax_scale tie_base qint8_ieee) tie_quotient
              eq_refl (or_introl eq_refl) Hdiv) as (Hfw & _ & _ & Hst & _ & _ & Helt & _).
  destruct (Helt 1 ltac:(repeat constructor)) as (Hy & r & c & _ & Hrange & _ & _ & _ & Hc).
  split; [exact Hdiv |]. split; [| split; [| split]].
  - rewrite Hfw. reflexivity.
  - exact Hst.
  - exact Hy.
  - exists c. destruct (Hrange ltac:(discriminate)) as [Hlo Hhi].
    split; [exact Hlo |]. split; [exact Hhi | exact Hc].
Defined.

Lemma axis_resolution_witness :
  0 < ndim example_scale4 /\
  QTensor_construct qint8 example_data4 example_scale4 false = Ok example_q4 /\
  nth 1 (shape example_scale4) 0 <> 1 /\
  _scale example_q4 = example_scale4 /\
  axis example_q4 = Some 1%Z.
Proof.
  assert (Hpos : 0 < ndim example_scale4) by (repeat constructor).
  assert (Hq : QTensor_construct qint8 example_data4 example_scale4 false
               = Ok example_q4) by reflexivity.
  assert (Hn : nth 1 (shape example_scale4) 0 <> 1) by discriminate.
  destruct (axis_resolution qint8 example_data4 example_scale4 false example_q4 Hpos Hq)
    as [Hnonunit _].
  destruct (Hnonunit 1 ltac:(repeat constructor) Hn) as (_ & Hs & Hax).
  split; [exact Hpos |]. split; [exact Hq |]. split; [exact Hn |].
  split; [exact Hs | exact Hax].
Defined.

Lemma axis_invariant_witness :
  QTensor_construct qint8 example_data4 example_scale4 false = Ok example_q4 /\
  ndim (_scale example_q4) = ndim (_data example_q4) /\
  nonunit_dims (shape (_scale example_q4)) = 1.
Proof.
  assert (Hq : QTensor_construct qint8 example_data4 example_scale4 false
               = Ok example_q4) by reflexivity.
  pose proof (axis_invariant qint8 example_data4 example_scale4 false example_q4 Hq)
    as Hinv.
  destruct Hinv as (_ & _ & Hrank & Hone).
  split; [exact Hq |]. split; [exact Hrank | exact Hone].
Defined.

Lemma rejection_order_witness :
  device_eqb (device example_data2) (device example_scale4) = true /\
  0 < ndim example_scale4 /\
  nonunit_dims (shape example_scale4) <= 1 /\
  ndim example_scale4 <> ndim example_data2 /\
  QTensor_construct qint8 example_data2 example_scale4 false
  = Raise (ValueError "The QTensor scale must be broadcastable to the base (Tip: try to add missing dims of length zero).").
Proof.
  assert (Hdev : device_eqb (device example_data2) (device example_scale4) = true)
    by reflexivity.
  assert (Hpos : 0 < ndim example_scale4) by (repeat constructor).
  assert (Hone : nonunit_dims (shape example_scale4) <= 1) by (repeat constructor).
  assert (Hrank : ndim example_scale4 <> ndim example_data2) by discriminate.
  destruct (rejection_order tt qint8 example_data2 example_scale4 false)
    as (_ & _ & Hbroadcast & _).
  split; [exact Hdev |]. split; [exact Hpos |]. split; [exact Hone |].
  split; [exact Hrank |].
  exact (Hbroadcast Hdev Hpos Hone Hrank).
Defined.

(** C5, as stated, fails where two defects meet.  A scale of shape (2, 2)
    given with data of rank 3 is a non-scalar scale whose rank differs from
    the rank of the data, and both the constructor and the quantizer raise the
    multiple-axis error for it, not the not-broadcastable error; and with the
    data on another device than that scale the constructor raises the
    assertion error, not the multiple-axis error. *)
Lemma rank_mismatch_raises_multi_axis :
  0 < ndim multi_axis_scale /\
  ndim multi_axis_scale <> ndim rank3_data /\
  1 < nonunit_dims (shape multi_axis_scale) /\
  QTensor_construct qint8 rank3_data multi_axis_scale false
  = Raise (ValueError "QTensor cannot be quantized along multiple axis.") /\
  QTensor_construct qint8 rank3_data multi_axis_scale false
  <> Raise (ValueError "The QTensor scale must be broadcastable to the base (Tip: try to add missing dims of length zero).") /\
  Quantizer_forward tt rank3_base qint8 (Some multi_axis_scale)
  = Raise (ValueError "Quantizing along multiple axis is not supported") /\
  Quantizer_forward tt rank3_base qint8 (Some multi_axis_scale)
  <> Raise (ValueError "When quantizing per-axis, the scale must be broadcastable to the base (Tip: try to add missing dims of length zero).") /\
  QTensor_construct qint8 rank3_data_cuda multi_axis_scale false
  = Raise AssertionError.
Proof.
  repeat split; try reflexivity; try discriminate; repeat constructor.
Qed.

Lemma Dequantizer_forward_computes_witness :
  Dequantizer_forward tt example_q = Ok example_deq /\
  dtype example_deq = float32 /\
  tget example_deq 2 = ((5 # 127) * 127)%Q.
Proof.
  assert (Hdeq : Dequantizer_forward tt example_q = Ok example_deq) by reflexivity.
  destruct (Dequantizer_forward_computes tt example_q) as (_ & _ & Hok & _).
  destruct (Hok example_deq Hdeq) as [Hdt Helt].
  split; [exact Hdeq |]. split; [exact Hdt |].
  exact (Helt 2 ltac:(repeat constructor)).
Defined.

Lemma flatten_unflatten_roundtrip_witness :
  QTensor_valid example_q /\
  exists q',
    QTensor__tensor_unflatten__
      (inner_tensors_of example_q (fst (QTensor__tensor_flatten__ example_q)))
      (snd (QTensor__tensor_flatten__ example_q)) [3] [1] = Ok q' /\
    q' = example_q.
Proof.
  assert (Hvalid : QTensor_valid example_q).
  { exists qint8, (i8 [3] [-127; 0; 127]%Q), (f32 [] [5 # 127]%Q), false.
    reflexivity. }
  split; [exact Hvalid |].
  destruct (flatten_unflatten_roundtrip example_q)
    as (_ & _ & _ & _ & Hround & _).
  destruct (Hround Hvalid [3] [1]) as (q' & Hun & _ & _ & _ & _ & Hsame).
  exists q'. split; [exact Hun | exact (Hsame eq_refl)].
Defined.

Lemma unflatten_ignores_outer_witness :
  QTensor__tensor_unflatten__
    (inner_tensors_of example_q ["_data"; "_scale"]) {[ "qtype" := qint8 ]} [3] [1]
  = QTensor__tensor_unflatten__
      (inner_tensors_of example_q ["_data"; "_scale"]) {[ "qtype" := qint8 ]} [7; 7] [0; 0].
Proof.
  exact (proj1 (unflatten_ignores_outer
                  (inner_tensors_of example_q ["_data"; "_scale"])
                  {[ "qtype" := qint8 ]} [3] [1] [7; 7] [0; 0])).
Defined.

(** An expected outer size that is not the size of the data is accepted, and
    the QTensor has the size of the data. *)
Example unflatten_wrong_outer_size :
  (q <- QTensor__tensor_unflatten__
          (inner_tensors_of example_q ["_data"; "_scale"]) {[ "qtype" := qint8 ]}
          [7; 7] [0; 0];;
   Ok (w_size (outer q)))
  = Ok [3].
Proof. vm_compute. reflexivity. Qed.

Lemma qfallback_dequantizes_witness :
  Forall2 dequantized example_args example_args' /\
  qfallback return_arguments example_args example_kwargs
  = Ok (example_args', example_kwargs).
Proof.
  assert (Hq : QTensor_dequantize example_q = Ok example_deq) by reflexivity.
  assert (Hargs : Forall2 dequantized example_args example_args').
  { repeat constructor; try exact Hq; discriminate. }
  assert (Hkwargs : Forall2 (fun kv kv' => fst kv = fst kv' /\
                                           dequantized (snd kv) (snd kv'))
                            example_kwargs example_kwargs).
  { repeat constructor; discriminate. }
  split; [exact Hargs |].
  exact (proj1 (qfallback_dequantizes return_arguments example_args example_kwargs)
               example_args' example_kwargs Hargs Hkwargs).
Defined.

Lemma QTensor_public_attributes_witness :
  QTensor_construct qint8 example_data4 example_scale4 false = Ok example_q4 /\
  w_size (outer example_q4) = shape example_data4 /\
  w_dtype (outer example_q4) = dtype example_scale4.
Proof.
  assert (Hq : QTensor_construct qint8 example_data4 example_scale4 false
               = Ok example_q4) by reflexivity.
  destruct (QTensor_public_attributes qint8 example_data4 example_scale4 false
              example_q4 Hq) as (_ & Hsize & _ & Hdtype & _).
  split; [exact Hq |]. split; [exact Hsize | exact Hdtype].
Defined.

Lemma quantized_data_dtype_witness :
  Quantizer_forward tt example_base qint8 None = Ok example_q /\
  dtype (_data example_q) = int8 /\
  shape (_data example_q) = shape example_base.
Proof.
  assert (Hq : Quantizer_forward tt example_base qint8 None = Ok example_q)
    by reflexivity.
  destruct (quantized_data_dtype tt example_base qint8 None example_q Hq)
    as (Hdtype & _ & Hshape).
  split; [exact Hq |]. split; [exact Hdtype | exact (Hshape eq_refl)].
Defined.

(** * Further properties *)

(** ** Rounding *)

Lemma round_half_even_wd (x y : Q) :
  x == y -> round_half_even x = round_half_even y.
Proof.
  intros E. unfold round_half_even.
  rewrite (Qfloor_comp _ _ E).
  assert (E' : x - inject_Z (Qfloor y) == y - inject_Z (Qfloor y)) by (rewrite E; reflexivity).
  now rewrite (Qcompare_comp _ _ E' (1 # 2) (1 # 2) (Qeq_refl _)).
Qed.

Lemma round_half_even_inject_Z (z : Z) : round_half_even (inject_Z z) = z.
Proof.
  unfold round_half_even. rewrite Qfloor_Z.
  assert (E : inject_Z z - inject_Z z == 0) by ring.
  now rewrite (Qcompare_comp _ _ E (1 # 2) (1 # 2) (Qeq_refl _)).
Qed.

Lemma round_half_even_monotone (x y : Q) :
  (x <= y)%Q -> (round_half_even x <= round_half_even y)%Z.
Proof.
  intros Hxy.
  destruct (Z_le_gt_dec (round_half_even x) (round_half_even y)) as [|Hgt];
    [assumption | exfalso].
  pose proof (round_half_even_error x) as Hx.
  pose proof (round_half_even_error y) as Hy.
  apply Qabs_Qle_condition in Hx. apply Qabs_Qle_condition in Hy.
  assert (Hz : (round_half_even y + 1 <= round_half_even x)%Z) by lia.
  rewrite Zle_Qle, inject_Z_plus in Hz. change (inject_Z 1) with 1%Q in Hz.
  assert (E : x == y) by lra.
  apply round_half_even_wd in E. lia.
Qed.

Lemma clamp_Z_bounds (lo hi z : Z) :
  (lo <= hi)%Z -> (lo <= clamp_Z lo hi z <= hi)%Z.
Proof. unfold clamp_Z. lia. Qed.

Lemma clamp_Z_monotone (lo hi z z' : Z) :
  (z <= z')%Z -> (clamp_Z lo hi z <= clamp_Z lo hi z')%Z.
Proof. unfold clamp_Z. lia. Qed.

Lemma clamp_Z_in_range (lo hi z : Z) :
  (lo <= z <= hi)%Z -> clamp_Z lo hi z = z.
Proof. unfold clamp_Z. lia. Qed.

(** The clamp of an integer between integer bounds is the integer clamp. *)
Lemma clamp_elt_inject_Z (lo hi z : Z) :
  (lo <= hi)%Z ->
  clamp_elt (inject_Z lo) (inject_Z hi) (inject_Z z) = inject_Z (clamp_Z lo hi z).
Proof.
  intros Hle. unfold clamp_elt, clamp_Z.
  destruct (Qlt_le_dec (inject_Z z) (inject_Z lo)) as [Hlt|Hge].
  - rewrite <- Zlt_Qlt in Hlt.
    destruct (Qlt_le_dec (inject_Z hi) (inject_Z lo)) as [Hlt'|_].
    + rewrite <- Zlt_Qlt in Hlt'. lia.
    + f_equal. lia.
  - rewrite <- Zle_Qle in Hge.
    destruct (Qlt_le_dec (inject_Z hi) (inject_Z z)) as [Hlt|Hge'].
    + rewrite <- Zlt_Qlt in Hlt. f_equal. lia.
    + rewrite <- Zle_Qle in Hge'. f_equal. lia.
Qed.

(** ** Broadcasting *)

Lemma broadcast_rev_comm (a b : list nat) : broadcast_rev a b = broadcast_rev b a.
Proof.
  revert b. induction a as [|x a IH]; intros [|y b]; simpl; try reflexivity.
  rewrite (IH b). destruct (broadcast_rev b a) as [r|e]; simpl; [| reflexivity].
  destruct (Nat.eqb_spec x y) as [-> | Hxy].
  - now rewrite Nat.eqb_refl.
  - destruct (Nat.eqb_spec y x) as [-> | _]; [contradiction |].
    destruct (Nat.eqb_spec x 1) as [-> | Hx], (Nat.eqb_spec y 1) as [-> | Hy];
      reflexivity.
Qed.

Lemma broadcast_shapes_comm (a b : list nat) :
  broadcast_shapes a b = broadcast_shapes b a.
Proof. unfold broadcast_shapes. now rewrite broadcast_rev_comm. Qed.

Lemma length_broadcast_rev (a b r : list nat) :
  broadcast_rev a b = Ok r -> length r = Nat.max (length a) (length b).
Proof.
  revert b r. induction a as [|x a IH]; intros [|y b] r; simpl.
  - now intros [= <-].
  - now intros [= <-].
  - now intros [= <-].
  - destruct (broadcast_rev a b) as [r'|] eqn:Hab; simpl; [| discriminate].
    specialize (IH b r' Hab).
    destruct (x =? y); [| destruct (x =? 1); [| destruct (y =? 1)]];
      try discriminate; intros [= <-]; simpl; now rewrite IH.
Qed.

Lemma length_broadcast_shapes (a b r : list nat) :
  broadcast_shapes a b = Ok r -> length r = Nat.max (length a) (length b).
Proof.
  unfold broadcast_shapes.
  destruct (broadcast_rev (rev a) (rev b)) as [r'|] eqn:Hab; simpl; [| discriminate].
  intros [= <-]. rewrite length_rev, (length_broadcast_rev _ _ _ Hab).
  now rewrite !length_rev.
Qed.

(** A shape of unit dimensions only is read at position 0. *)
Lemma src_offset_unit_dims (s rs : list nat) (k : nat) :
  nonunit_dims s = 0 -> src_offset s rs k = 0.
Proof.
  intros Hs. unfold src_offset, bindex.
  generalize (drop (length (unravel rs k) - length s) (unravel rs k)) as idx.
  induction s as [|d s IH]; intros idx; [reflexivity |].
  unfold nonunit_dims in Hs. simpl in Hs.
  destruct (Nat.eqb_spec d 1) as [-> | Hd]; simpl in Hs; [| discriminate].
  destruct idx as [|i idx]; [reflexivity |].
  simpl. now rewrite (IH Hs).
Qed.

Section MoreProperties.
Context `{Host}.

(** ** When construction succeeds *)

Lemma device_eqb_eq (a b : torch_device) : device_eqb a b = true <-> a = b.
Proof.
  split.
  - destruct a as [|i], b as [|j]; simpl; try discriminate; [reflexivity |].
    intros E. apply Nat.eqb_eq in E. now subst.
  - intros ->. apply device_eqb_refl.
Qed.

Lemma nonunit_dims_at_most_one (s : list nat) :
  (forall i j, i < length s -> j < length s ->
               nth i s 0 <> 1 -> nth j s 0 <> 1 -> i = j) ->
  nonunit_dims s <= 1.
Proof.
  induction s as [|d s IH]; intros Huniq; [unfold nonunit_dims; simpl; lia |].
  rewrite nonunit_dims_cons.
  destruct (Nat.eqb_spec d 1) as [-> | Hd].
  - simpl. apply IH. intros i j Hi Hj Hni Hnj.
    assert (E : S i = S j) by (apply Huniq; simpl; try lia; assumption).
    now injection E.
  - rewrite (nonunit_dims_zero s); [lia |].
    intros i Hi.
    destruct (Nat.eq_dec (nth i s 0) 1) as [|Hn]; [assumption | exfalso].
    assert (E : 0 = S i) by (apply Huniq; simpl; try lia; assumption).
    discriminate.
Qed.

(** The constructor returns once its checks have passed. *)
Lemma QTensor_construct_ok (qt : qtype) (data scale : tensor) (rg : bool) :
  device data = device scale ->
  ndim scale = 0 \/ (nonunit_dims (shape scale) <= 1 /\ ndim scale = ndim data) ->
  exists q, QTensor_construct qt data scale rg = Ok q.
Proof.
  intros Hdev Hvalid.
  unfold QTensor_construct, QTensor__new__, QTensor__init__.
  rewrite Hdev, device_eqb_refl, ndim_squeeze. simpl.
  destruct (Nat.ltb_spec 0 (ndim scale)) as [Hpos|]; [| eexists; reflexivity].
  destruct Hvalid as [H0 | [Hone Hrank]]; [lia |].
  destruct (Nat.ltb_spec 1 (nonunit_dims (shape scale))); [lia |].
  rewrite Hrank, Nat.eqb_refl. simpl.
  destruct (axis_loop (shape scale) (ndim data) None) as [a|]; [| eexists; reflexivity].
  destruct (a =? Z.of_nat (ndim data) - 1)%Z; eexists; reflexivity.
Qed.

(** Construction succeeds exactly when data and scale are on one device and
    the scale is 0-dim, or has the rank of the data and no two distinct
    dimensions of a size other than 1: the test on the rank of the squeezed
    scale misses no such pair and rejects nothing else. *)
Theorem QTensor_construct_succeeds_iff (qt : qtype) (data scale : tensor) (rg : bool) :
  (exists q, QTensor_construct qt data scale rg = Ok q) <->
  device data = device scale /\
  (ndim scale = 0 \/
   (ndim scale = ndim data /\
    forall i j, i < ndim scale -> j < ndim scale ->
                nth i (shape scale) 0 <> 1 -> nth j (shape scale) 0 <> 1 -> i = j)).
Proof.
  split.
  - intros [q Hq].
    destruct (QTensor_construct_inv _ _ _ _ _ Hq) as (Hdev & _ & _ & _ & Hcases).
    split; [now apply device_eqb_eq |].
    destruct Hcases as [(H0 & _) | (_ & Hone & Hrank & _)]; [now left | right].
    split; [assumption |].
    intros i j Hi Hj Hni Hnj. now apply (nonunit_unique (shape scale)).
  - intros (Hdev & Hshape). apply QTensor_construct_ok; [assumption |].
    destruct Hshape as [H0 | [Hrank Huniq]]; [now left | right].
    split; [| assumption]. now apply nonunit_dims_at_most_one.
Qed.

(** ** What the quantizer raises *)

Lemma ndim_binop (f : torch_dtype -> Q -> Q -> Q) (a b d : tensor) :
  binop f a b = Ok d -> ndim d = Nat.max (ndim a) (ndim b).
Proof.
  intros Hd. destruct (binop_inv _ _ _ _ Hd) as (_ & Hs & _).
  exact (length_broadcast_shapes _ _ _ Hs).
Qed.

(** The quantizer with a scale that passes its checks. *)
Lemma Quantizer_forward_validated (ctx : FunctionCtx) (base : tensor) (qt : qtype)
    (s : tensor) :
  ndim s = 0 \/ (nonunit_dims (shape s) <= 1 /\ ndim s = ndim base) ->
  Quantizer_forward ctx base qt (Some s)
  = (d <- torch_div base s;;
     QTensor_construct qt
       (tensor_to (torch_clamp (if negb (is_floating_point qt) then torch_round d else d)
                               (imin (dtype_info (qtype_dtype qt)))
                               (imax (dtype_info (qtype_dtype qt))))
                  (qtype_dtype qt))
       s false).
Proof. exact (Quantizer_forward_resolved ctx base qt (Some s) s eq_refl). Qed.

(** After a division that succeeded, with a scale that passed the checks of
    the quantizer, the constructor can only fail on the devices, and only for
    a 0-dim scale. *)
Lemma construct_after_division (qt : qtype) (base s d data : tensor)
    (f : torch_dtype -> Q -> Q -> Q) (e : exn) :
  ndim s = 0 \/ (nonunit_dims (shape s) <= 1 /\ ndim s = ndim base) ->
  binop f base s = Ok d ->
  shape data = shape d ->
  device data = device d ->
  QTensor_construct qt data s false = Raise e ->
  e = AssertionError /\ ndim s = 0 /\ device s <> device base.
Proof.
  intros Hvalid Hd Hshape Hdev.
  destruct (device_eqb (device data) (device s)) eqn:Edev.
  - apply device_eqb_eq in Edev.
    destruct (QTensor_construct_ok qt data s false Edev) as [q Hq]; [| congruence].
    destruct Hvalid as [H0 | [Hone Hrank]]; [now left | right].
    split; [assumption |].
    unfold ndim at 2. rewrite Hshape. fold (ndim d).
    rewrite (ndim_binop _ _ _ _ Hd), Hrank. lia.
  - unfold QTensor_construct, QTensor__new__. rewrite Edev. simpl.
    intros [= <-]. split; [reflexivity |].
    destruct (binop_inv _ _ _ _ Hd) as (Hbd & _).
    rewrite Hdev in Edev. revert Hbd. unfold binop_device.
    destruct (device_eqb (device base) (device s)) eqn:E1.
    { intros [= E]. rewrite <- E, E1 in Edev. discriminate. }
    destruct ((ndim base =? 0) && device_eqb (device base) cpu).
    { intros [= E]. rewrite <- E, device_eqb_refl in Edev. discriminate. }
    destruct (ndim s =? 0) eqn:E0; simpl; [| discriminate].
    intros _. split; [now apply Nat.eqb_eq |].
    intros E. rewrite E, device_eqb_refl in E1. discriminate.
Qed.

(** Whatever the quantizer raises is one of its own two value errors, for a
    non-scalar scale with several non-unit dimensions or of another rank than
    the base; an error of the host's division; or the assertion of the
    constructor, for a 0-dim scale on another device than the base.  The value
    errors of the constructor are never raised through the quantizer. *)
Theorem Quantizer_forward_raises (ctx : FunctionCtx) (base : tensor) (qt : qtype)
    (scale : option tensor) (e : exn) :
  Quantizer_forward ctx base qt scale = Raise e ->
  (exists s, scale = Some s /\ 1 < nonunit_dims (shape s) /\
             e = ValueError "Quantizing along multiple axis is not supported") \/
  (exists s, scale = Some s /\ 0 < ndim s /\ nonunit_dims (shape s) <= 1 /\
             ndim s <> ndim base /\
             e = ValueError "When quantizing per-axis, the scale must be broadcastable to the base (Tip: try to add missing dims of length zero).") \/
  (exists msg, e = RuntimeError msg) \/
  (exists s, scale = Some s /\ ndim s = 0 /\ device s <> device base /\
             e = AssertionError).
Proof.
  destruct scale as [s|].
  - destruct (Nat.ltb_spec 1 (nonunit_dims (shape s))) as [Hmulti|Hone].
    { intros He. left. exists s. split; [reflexivity |]. split; [assumption |].
      revert He. unfold Quantizer_forward. rewrite ndim_squeeze.
      pose proof (nonunit_dims_le (shape s)) as Hle. fold (ndim s) in Hle.
      destruct (Nat.ltb_spec 0 (ndim s)); [| lia].
      destruct (Nat.ltb_spec 1 (nonunit_dims (shape s))); [| lia].
      simpl. now intros [= <-]. }
    destruct (Nat.eq_dec (ndim s) 0) as [H0|Hpos].
    + rewrite (Quantizer_forward_validated ctx base qt s (or_introl H0)).
      destruct (torch_div base s) as [d|e'] eqn:Hd; simpl.
      * intros He.
        destruct (construct_after_division qt base s d _ div_elt e (or_introl H0) Hd
                    (proj1 (shape_quantized qt d _ _ _))
                    (proj2 (shape_quantized qt d _ _ _)) He) as (-> & _ & Hdev).
        right. right. right. exists s. repeat split; assumption.
      * intros [= <-]. right. right. left.
        exact (binop_raises_runtime _ _ _ _ Hd).
    + destruct (Nat.eq_dec (ndim s) (ndim base)) as [Hrank|Hrank].
      * assert (Hvalid : ndim s = 0 \/
                         (nonunit_dims (shape s) <= 1 /\ ndim s = ndim base))
          by (right; split; assumption).
        rewrite (Quantizer_forward_validated ctx base qt s Hvalid).
        destruct (torch_div base s) as [d|e'] eqn:Hd; simpl.
        -- intros He.
           destruct (construct_after_division qt base s d _ div_elt e Hvalid Hd
                       (proj1 (shape_quantized qt d _ _ _))
                       (proj2 (shape_quantized qt d _ _ _)) He) as (_ & H0 & _).
           contradiction.
        -- intros [= <-]. right. right. left.
           exact (binop_raises_runtime _ _ _ _ Hd).
      * intros He. right. left. exists s.
        split; [reflexivity |]. split; [lia |]. split; [assumption |].
        split; [assumption |].
        revert He. unfold Quantizer_forward. rewrite ndim_squeeze.
        destruct (Nat.ltb_spec 0 (ndim s)); [| lia].
        destruct (Nat.ltb_spec 1 (nonunit_dims (shape s))); [lia |].
        destruct (Nat.eqb_spec (ndim s) (ndim base)); [contradiction |].
        simpl. now intros [= <-].
  - unfold Quantizer_forward. cbn [bind].
    unfold torch_div.
    rewrite (binop_scalar_r div_elt base (absmax_scale base qt) eq_refl eq_refl).
    cbn [bind]. intros He. exfalso.
    assert (Hd := binop_scalar_r div_elt base (absmax_scale base qt) eq_refl eq_refl).
    destruct (construct_after_division qt base (absmax_scale base qt) _ _ div_elt e
                (or_introl eq_refl) Hd
                (proj1 (shape_quantized qt _ _ _ _))
                (proj2 (shape_quantized qt _ _ _ _)) He) as (_ & _ & Hdev).
    now apply Hdev.
Qed.

(** ** The stored elements of an integer qtype *)

Lemma quantize_elt_integer (qt : qtype) (lo hi : Z) (y : Q) :
  is_floating_point qt = false ->
  integer_storage (qtype_dtype qt) lo hi ->
  quantize_elt qt y == inject_Z (clamp_Z lo hi (round_half_even y)).
Proof.
  intros Hfp (Hinfo & Hle & Hto).
  unfold quantize_elt. rewrite Hfp, Hinfo. simpl.
  rewrite clamp_elt_inject_Z by assumption.
  apply Hto. now apply clamp_Z_bounds.
Qed.

(** What a successful run of the quantizer went through. *)
Lemma Quantizer_forward_inv (ctx : FunctionCtx) (base : tensor) (qt : qtype)
    (scale : option tensor) (q : QTensor) :
  Quantizer_forward ctx base qt scale = Ok q ->
  let resolved := match scale with
                  | Some s => s
                  | None => absmax_scale base qt
                  end in
  exists d,
    torch_div base resolved = Ok d /\
    _data q = tensor_to (torch_clamp (if negb (is_floating_point qt)
                                      then torch_round d else d)
                                     (imin (dtype_info (qtype_dtype qt)))
                                     (imax (dtype_info (qtype_dtype qt))))
                        (qtype_dtype qt) /\
    QTensor_construct qt (_data q) resolved false = Ok q.
Proof.
  intros Hq resolved.
  assert (Hres : exists r,
             r = resolved /\
             (d <- torch_div base r;;
              QTensor_construct qt
                (tensor_to (torch_clamp (if negb (is_floating_point qt)
                                         then torch_round d else d)
                                        (imin (dtype_info (qtype_dtype qt)))
                                        (imax (dtype_info (qtype_dtype qt))))
                           (qtype_dtype qt)) r false) = Ok q).
  { revert Hq. unfold Quantizer_forward. subst resolved.
    destruct scale as [s|]; [| intros Hq; eexists; split; [reflexivity | exact Hq]].
    destruct (0 <? ndim s).
    - destruct (1 <? ndim (squeeze s)); [discriminate |].
      destruct (negb (ndim s =? ndim base)); [discriminate |].
      intros Hq. eexists; split; [reflexivity | exact Hq].
    - intros Hq. eexists; split; [reflexivity | exact Hq]. }
  destruct Hres as (r & -> & Hrun).
  destruct (torch_div base resolved) as [d|] eqn:Hd; simpl in Hrun; [| discriminate].
  exists d. split; [reflexivity |].
  destruct (QTensor_construct_inv _ _ _ _ _ Hrun) as (_ & _ & _ & Hdata & _).
  split; [exact Hdata |]. now rewrite Hdata.
Qed.

(** Each stored element of an integer qtype is the host's quotient, rounded
    and clamped into the range. *)
Lemma quantized_element (ctx : FunctionCtx) (base : tensor) (qt : qtype)
    (scale : option tensor) (q : QTensor) (lo hi : Z) (k : nat) :
  is_floating_point qt = false ->
  integer_storage (qtype_dtype qt) lo hi ->
  Quantizer_forward ctx base qt scale = Ok q ->
  k < numel (shape (_data q)) ->
  let resolved := match scale with
                  | Some s => s
                  | None => absmax_scale base qt
                  end in
  let dq := result_type (dtype base) (ndim base) (dtype resolved) (ndim resolved) in
  tget (_data q) k
  == inject_Z (clamp_Z lo hi
                 (round_half_even (div_elt dq (bget base (shape (_data q)) k)
                                              (bget resolved (shape (_data q)) k)))).
Proof.
  intros Hfp Hint Hq Hk resolved dq.
  destruct (Quantizer_forward_inv _ _ _ _ _ Hq) as (d & Hd & Hdata & _).
  fold resolved in Hd.
  assert (Hshape : shape (_data q) = shape d).
  { rewrite Hdata. apply shape_quantized. }
  rewrite Hshape in Hk |- *.
  rewrite Hdata.
  pose proof (tget_quantized qt d k) as Hget. cbv zeta in Hget.
  rewrite Hget by (rewrite (length_values_binop _ _ _ _ Hd); assumption).
  rewrite (tget_binop _ _ _ _ _ Hd Hk).
  destruct (binop_inv _ _ _ _ Hd) as (_ & _ & -> & _). fold dq.
  now apply quantize_elt_integer.
Qed.

(** Quantization to an integer qtype saturates and never wraps around: every
    stored element is an integer of the range of the storage dtype; it is the
    largest one when the host's quotient of base by scale is at or above it,
    the smallest one when the quotient is at or below it, and in between the
    quotient rounded to an integer at most 1/2 away from it. *)
Theorem quantized_elements_saturate (ctx : FunctionCtx) (base : tensor) (qt : qtype)
    (scale : option tensor) (q : QTensor) (lo hi : Z) (k : nat) :
  is_floating_point qt = false ->
  integer_storage (qtype_dtype qt) lo hi ->
  Quantizer_forward ctx base qt scale = Ok q ->
  k < numel (shape (_data q)) ->
  let resolved := match scale with
                  | Some s => s
                  | None => absmax_scale base qt
                  end in
  let dq := result_type (dtype base) (ndim base) (dtype resolved) (ndim resolved) in
  let y := div_elt dq (bget base (shape (_data q)) k)
                      (bget resolved (shape (_data q)) k) in
  exists z : Z,
    tget (_data q) k == inject_Z z /\
    (lo <= z <= hi)%Z /\
    ((inject_Z hi <= y)%Q -> z = hi) /\
    ((y <= inject_Z lo)%Q -> z = lo) /\
    ((inject_Z lo <= y)%Q -> (y <= inject_Z hi)%Q ->
     z = round_half_even y /\ (Qabs (inject_Z z - y) <= 1 # 2)%Q).
Proof.
  intros Hfp Hint Hq Hk resolved dq y.
  pose proof (quantized_element ctx base qt scale q lo hi k Hfp Hint Hq Hk) as Helt.
  cbv zeta in Helt. fold resolved in Helt. fold dq in Helt. fold y in Helt.
  destruct Hint as (_ & Hle & _).
  exists (clamp_Z lo hi (round_half_even y)).
  split; [exact Helt |].
  split; [now apply clamp_Z_bounds |].
  split; [| split].
  - intros Hy. apply round_half_even_monotone in Hy.
    rewrite round_half_even_inject_Z in Hy. unfold clamp_Z. lia.
  - intros Hy. apply round_half_even_monotone in Hy.
    rewrite round_half_even_inject_Z in Hy. unfold clamp_Z. lia.
  - intros Hy1 Hy2.
    apply round_half_even_monotone in Hy1, Hy2.
    rewrite round_half_even_inject_Z in Hy1, Hy2.
    rewrite clamp_Z_in_range by lia.
    split; [reflexivity | apply round_half_even_error].
Qed.

(** The quantizer with a 0-dim scale on the device of the base. *)
Lemma Quantizer_forward_scalar (ctx : FunctionCtx) (base : tensor) (qt : qtype)
    (s : tensor) :
  shape s = [] ->
  device s = device base ->
  exists q,
    Quantizer_forward ctx base qt (Some s) = Ok q /\
    shape (_data q) = shape base /\
    device (_data q) = device base /\
    dtype (_data q) = qtype_dtype qt /\
    _scale q = s /\
    _qtype q = qt.
Proof.
  intros Hshape Hdev.
  assert (H0 : ndim s = 0) by (unfold ndim; now rewrite Hshape).
  rewrite (Quantizer_forward_validated ctx base qt s (or_introl H0)).
  unfold torch_div. rewrite (binop_scalar_r div_elt base s Hshape Hdev). cbn [bind].
  set (d := {| shape := shape base |}).
  set (data := tensor_to _ _).
  assert (Hsd : shape data = shape base /\ device data = device base).
  { subst data. destruct (shape_quantized qt d (imin (dtype_info (qtype_dtype qt)))
                            (imax (dtype_info (qtype_dtype qt))) (qtype_dtype qt)).
    split; assumption. }
  destruct Hsd as [Hs Hd].
  destruct (QTensor_construct_ok qt data s false) as [q Hq];
    [congruence | now left |].
  exists q. split; [exact Hq |].
  destruct (QTensor_construct_inv _ _ _ _ _ Hq) as (_ & _ & Hqt & Hdata & Hcases).
  rewrite Hdata.
  repeat split; try assumption.
  destruct Hcases as [(_ & _ & Hsc) | (Hpos & _)]; [assumption | lia].
Qed.

(** Quantization with a positive 0-dim scale keeps the order of the elements
    on a host whose division by a positive divisor is monotone: a larger
    element of the base is never stored as a smaller integer. *)
Theorem quantization_monotone (ctx : FunctionCtx) (base : tensor) (qt : qtype)
    (s : tensor) (q : QTensor) (lo hi : Z) (i j : nat) :
  is_floating_point qt = false ->
  integer_storage (qtype_dtype qt) lo hi ->
  shape s = [] ->
  (0 < tget s 0)%Q ->
  (forall x y t : Q,
     (0 < t)%Q -> (x <= y)%Q ->
     (div_elt (result_type (dtype base) (ndim base) (dtype s) 0) x t
      <= div_elt (result_type (dtype base) (ndim base) (dtype s) 0) y t)%Q) ->
  Quantizer_forward ctx base qt (Some s) = Ok q ->
  i < numel (shape base) ->
  j < numel (shape base) ->
  (tget base i <= tget base j)%Q ->
  (tget (_data q) i <= tget (_data q) j)%Q.
Proof.
  intros Hfp Hint Hshape Hpos Hmono Hq Hi Hj Hle.
  assert (Hsq : shape (_data q) = shape base).
  { destruct (Quantizer_forward_inv _ _ _ _ _ Hq) as (d & Hd & Hdata & _).
    rewrite Hdata, (proj1 (shape_quantized qt d _ _ _)).
    destruct (binop_inv _ _ _ _ Hd) as (_ & Hb & _).
    rewrite Hshape, broadcast_shapes_scalar_r in Hb. now injection Hb. }
  assert (Hi' : i < numel (shape (_data q))) by now rewrite Hsq.
  assert (Hj' : j < numel (shape (_data q))) by now rewrite Hsq.
  rewrite (quantized_element ctx base qt (Some s) q lo hi i Hfp Hint Hq Hi').
  rewrite (quantized_element ctx base qt (Some s) q lo hi j Hfp Hint Hq Hj').
  rewrite Hsq, !(bget_scalar s _ _ Hshape), !bget_self by assumption.
  rewrite <- Zle_Qle.
  apply clamp_Z_monotone, round_half_even_monotone.
  unfold ndim at 2 4. rewrite Hshape. cbn [length].
  now apply Hmono.
Qed.

(** ** Dequantization of constructed tensors *)

(** A QTensor with no axis always dequantizes: the result has the shape and
    the device of the data, and each element of it is the host's product of
    the scalar scale with the element of the data, converted to the dtype of
    the scale first when the qtype is floating-point. *)
Theorem scalar_scale_dequantizes (ctx : FunctionCtx) (q : QTensor) :
  QTensor_valid q ->
  axis q = None ->
  let operand := if is_floating_point (_qtype q)
                 then tensor_to (_data q) (dtype (_scale q))
                 else _data q in
  exists d,
    Dequantizer_forward ctx q = Ok d /\
    shape d = shape (_data q) /\
    device d = device (_data q) /\
    forall k, k < numel (shape (_data q)) ->
              tget d k = mul_elt (dtype d) (tget (_scale q) 0) (tget operand k).
Proof.
  intros (qt & data & scale & rg & Hq) Hax operand.
  destruct (QTensor_construct_inv _ _ _ _ _ Hq) as (Hdev & _ & _ & Hdata & Hcases).
  apply device_eqb_eq in Hdev.
  assert (Hsc : shape (_scale q) = [] /\ device (_scale q) = device (_data q)).
  { rewrite Hdata.
    destruct Hcases as [(H0 & _ & ->) | (_ & _ & _ & [(Hnone & _ & ->) | (a & _ & _ & Ha)])].
    - split; [now apply nil_length_inv | now symmetry].
    - split; [| now symmetry].
      apply nil_length_inv. change (nonunit_dims (shape scale) = 0).
      apply nonunit_dims_zero. now apply (proj1 (axis_loop_None _ _)).
    - unfold axis in Hax. rewrite Hax in Ha. discriminate. }
  destruct Hsc as [Hshape Hdevs].
  assert (Hop : shape operand = shape (_data q) /\ device operand = device (_data q))
    by (subst operand; destruct (is_floating_point (_qtype q)); split; reflexivity).
  destruct Hop as [Hos Hod].
  assert (Hrun : Dequantizer_forward ctx q = torch_mul (_scale q) operand)
    by (unfold Dequantizer_forward; subst operand;
        now destruct (is_floating_point (_qtype q))).
  rewrite Hrun. unfold torch_mul.
  rewrite (binop_scalar_l mul_elt (_scale q) operand Hshape) by congruence.
  eexists. split; [reflexivity |]. cbn [shape device dtype].
  split; [exact Hos |]. split; [exact Hod |].
  intros k Hk. unfold tget at 1. cbn [values].
  rewrite Hos, nth_map_seq by exact Hk.
  rewrite (bget_scalar (_scale q) _ k Hshape).
  f_equal. rewrite <- Hos. apply bget_self. now rewrite Hos.
Qed.

(** A rational less than 1/2 away from an integer is rounded to it. *)
Lemma round_half_even_near (x : Q) (z : Z) :
  (Qabs (x - inject_Z z) < 1 # 2)%Q -> round_half_even x = z.
Proof.
  intros Hx.
  pose proof (round_half_even_error x) as Hr.
  apply Qabs_Qle_condition in Hr.
  assert (Hx' : (- (1 # 2) < x - inject_Z z)%Q /\ (x - inject_Z z < 1 # 2)%Q).
  { apply Qabs_Qlt_condition. exact Hx. }
  destruct Hx' as [Hx1 Hx2].
  set (r := round_half_even x) in *.
  destruct (Z_lt_le_dec r z) as [Hlt|Hge].
  - exfalso. assert (Hz : (r + 1 <= z)%Z) by lia.
    rewrite Zle_Qle, inject_Z_plus in Hz. change (inject_Z 1) with 1%Q in Hz. lra.
  - destruct (Z_lt_le_dec z r) as [Hlt|Hle]; [exfalso | lia].
    assert (Hz : (z + 1 <= r)%Z) by lia.
    rewrite Zle_Qle, inject_Z_plus in Hz. change (inject_Z 1) with 1%Q in Hz. lra.
Qed.

(** Quantizing again what a quantized tensor dequantizes to, with the same
    0-dim scale, stores the same integers, provided the host's quotient by
    the scale of its product of the scale with a stored integer comes back
    less than 1/2 away from that integer, as it does while the product
    neither overflows nor vanishes: there quantization undoes
    dequantization. *)
Theorem requantization_is_stable (c1 c2 c3 : FunctionCtx) (base : tensor) (qt : qtype)
    (s : tensor) (lo hi : Z) (q : QTensor) :
  is_floating_point qt = false ->
  integer_storage (qtype_dtype qt) lo hi ->
  shape s = [] ->
  device s = device base ->
  Quantizer_forward c1 base qt (Some s) = Ok q ->
  let dm := result_type (dtype s) 0 (qtype_dtype qt) (ndim base) in
  let dq := result_type dm (ndim base) (dtype s) 0 in
  (forall k, k < numel (shape base) ->
     (Qabs (div_elt dq (mul_elt dm (tget s 0) (tget (_data q) k)) (tget s 0)
            - tget (_data q) k) < 1 # 2)%Q) ->
  exists d q',
    Dequantizer_forward c2 q = Ok d /\
    Quantizer_forward c3 d qt (Some s) = Ok q' /\
    shape (_data q') = shape (_data q) /\
    forall k, k < numel (shape base) -> tget (_data q') k == tget (_data q) k.
Proof.
  intros Hfp Hint Hshape Hdev Hq dm dq Hback.
  destruct (Quantizer_forward_scalar c1 base qt s Hshape Hdev)
    as (q0 & Hq0 & Hsq & Hdq & Hdt & Hscale & Hqt).
  rewrite Hq in Hq0. injection Hq0 as <-.
  assert (Hnd : ndim (_data q) = ndim base) by (unfold ndim; now rewrite Hsq).
  (* the dequantized tensor *)
  assert (Hdeq : exists d, Dequantizer_forward c2 q = Ok d /\
                           shape d = shape base /\ device d = device base /\
                           dtype d = dm /\
                           forall k, k < numel (shape base) ->
                                     tget d k = mul_elt dm (tget s 0) (tget (_data q) k)).
  { unfold Dequantizer_forward. rewrite Hqt, Hfp, Hscale. unfold torch_mul.
    rewrite (binop_scalar_l mul_elt s (_data q) Hshape) by congruence.
    eexists. split; [reflexivity |]. cbn [shape device dtype].
    split; [exact Hsq |]. split; [exact Hdq |].
    split; [subst dm; now rewrite Hdt, Hnd |].
    intros k Hk. unfold tget at 1. cbn [values].
    rewrite Hsq, nth_map_seq by exact Hk.
    rewrite (bget_scalar s _ k Hshape), Hdt, Hnd. fold dm. f_equal.
    rewrite <- Hsq. apply bget_self. now rewrite Hsq. }
  destruct Hdeq as (d & Hd & Hsd & Hdd & Hdtd & Helt).
  destruct (Quantizer_forward_scalar c3 d qt s Hshape) as (q' & Hq' & Hsq' & _);
    [congruence |].
  exists d, q'. split; [exact Hd |]. split; [exact Hq' |].
  split; [congruence |].
  intros k Hk.
  assert (Hk1 : k < numel (shape (_data q))) by now rewrite Hsq.
  assert (Hk2 : k < numel (shape (_data q'))) by now rewrite Hsq', Hsd.
  pose proof (quantized_element c1 base qt (Some s) q lo hi k Hfp Hint Hq Hk1) as E1.
  pose proof (quantized_element c3 d qt (Some s) q' lo hi k Hfp Hint Hq' Hk2) as E2.
  cbv zeta in E1, E2.
  rewrite Hsq' in E2. rewrite (bget_scalar s _ k Hshape) in E2.
  rewrite bget_self in E2 by now rewrite Hsd.
  assert (Hdq' : result_type (dtype d) (ndim d) (dtype s) (ndim s) = dq).
  { subst dq. unfold ndim. now rewrite Hdtd, Hsd, Hshape. }
  rewrite Hdq', (Helt k Hk) in E2.
  set (z := clamp_Z lo hi _) in E1.
  assert (Hz : (lo <= z <= hi)%Z).
  { subst z. apply clamp_Z_bounds. now destruct Hint as (_ & Hle & _). }
  pose proof (Hback k Hk) as Hnear.
  assert (Hround : round_half_even
                     (div_elt dq (mul_elt dm (tget s 0) (tget (_data q) k)) (tget s 0))
                   = z).
  { apply round_half_even_near. now rewrite <- E1. }
  rewrite E2, Hround, E1.
  now rewrite clamp_Z_in_range.
Qed.

(** ** The round trip through an integer qtype *)

(** The scale a QTensor stores, squeezed or not, is on the device of the scale
    given, broadcasts where that one does and is read as that one is. *)
Lemma stored_scale (qt : qtype) (data s : tensor) (rg : bool) (q : QTensor) :
  QTensor_construct qt data s rg = Ok q ->
  device (_scale q) = device s /\
  (forall rs k, bget (_scale q) rs k = bget s rs k) /\
  (forall rs, broadcast_shapes (shape s) rs = Ok rs ->
              broadcast_shapes (shape (_scale q)) rs = Ok rs) /\
  (ndim s = 0 -> _scale q = s).
Proof.
  intros Hq.
  destruct (QTensor_construct_inv _ _ _ _ _ Hq) as (_ & _ & _ & _ & Hcases).
  destruct Hcases as [(_ & _ & ->) | (Hpos & _ & _ & [(Hnone & _ & ->) | (a & _ & -> & _)])];
    try (repeat split; intros; assumption).
  assert (Hz : nonunit_dims (shape s) = 0).
  { apply nonunit_dims_zero. now apply (proj1 (axis_loop_None _ _)). }
  assert (Hnil : shape (squeeze s) = []) by now apply nil_length_inv.
  split; [reflexivity |]. split; [| split].
  - intros rs k. unfold bget. rewrite Hnil, src_offset_scalar.
    now rewrite (src_offset_unit_dims _ _ _ Hz).
  - intros rs _. rewrite Hnil. apply broadcast_shapes_scalar_l.
  - intros H0. lia.
Qed.

(** An integer clamped into a range is no further from a rational of the
    range than the integer was. *)
Lemma clamp_Z_nearer (lo hi z : Z) (x : Q) :
  (inject_Z lo <= x)%Q -> (x <= inject_Z hi)%Q ->
  (Qabs (inject_Z (clamp_Z lo hi z) - x) <= Qabs (inject_Z z - x))%Q.
Proof.
  intros Hlo Hhi. unfold clamp_Z.
  assert (Hle : (lo <= hi)%Z) by (rewrite Zle_Qle; lra).
  destruct (Z_lt_le_dec z lo) as [Hz|Hz].
  - rewrite Z.min_r, Z.max_l by lia.
    rewrite Zlt_Qlt in Hz.
    rewrite (Qabs_neg (inject_Z lo - x)), (Qabs_neg (inject_Z z - x)) by lra. lra.
  - destruct (Z_lt_le_dec hi z) as [Hz'|Hz'].
    + rewrite Z.min_l, Z.max_r by lia.
      rewrite Zlt_Qlt in Hz'.
      rewrite (Qabs_pos (inject_Z hi - x)), (Qabs_pos (inject_Z z - x)) by lra. lra.
    + rewrite Z.min_r, Z.max_r by lia. apply Qle_refl.
Qed.

(** The error of one element through the round trip: half the scale for the
    rounding of the quantizer, and what the host's quotient [qh] and the
    host's product [p] are off by. *)
Lemma rescaled_error (s x qh p v : Q) (lo hi : Z) :
  (0 < s)%Q ->
  (Qabs x <= s * inject_Z hi)%Q ->
  (lo <= - hi)%Z ->
  v == inject_Z (clamp_Z lo hi (round_half_even qh)) ->
  (Qabs (p - x) <= s / 2 + s * Qabs (qh - x / s) + Qabs (p - s * v))%Q.
Proof.
  intros Hs Hx Hlo Hv.
  set (q := (x / s)%Q).
  assert (Hq : s * q == x) by (subst q; field; lra).
  assert (Hrange : (inject_Z lo <= q)%Q /\ (q <= inject_Z hi)%Q).
  { apply Qabs_Qle_condition in Hx.
    rewrite Zle_Qle, inject_Z_opp in Hlo.
    assert (Hm : (inject_Z lo * s <= - inject_Z hi * s)%Q)
      by (apply Qmult_le_compat_r; lra).
    subst q. split.
    - apply Qle_shift_div_l; [assumption | lra].
    - apply Qle_shift_div_r; [assumption | lra]. }
  destruct Hrange as [Hq1 Hq2].
  set (r := round_half_even qh) in *.
  pose proof (clamp_Z_nearer lo hi r q Hq1 Hq2) as Hnear.
  pose proof (round_half_even_error qh) as Hr. fold r in Hr.
  rewrite <- Hv in Hnear.
  pose proof (Qabs_triangle (inject_Z r - qh) (qh - q)) as Ht.
  assert (E1 : inject_Z r - qh + (qh - q) == inject_Z r - q) by ring.
  rewrite E1 in Ht.
  assert (Hvq : (Qabs (v - q) <= (1 # 2) + Qabs (qh - q))%Q) by lra.
  assert (Hsv : (Qabs (s * v - x) <= s * ((1 # 2) + Qabs (qh - q)))%Q).
  { assert (E2 : s * v - x == s * (v - q)) by (rewrite <- Hq; ring).
    rewrite E2, Qabs_Qmult, (Qabs_pos s) by lra.
    apply Qmult_le_l; assumption. }
  pose proof (Qabs_triangle (p - s * v) (s * v - x)) as Ht2.
  assert (E3 : p - s * v + (s * v - x) == p - x) by ring.
  rewrite E3 in Ht2.
  assert (E4 : s / 2 + s * Qabs (qh - q) == s * ((1 # 2) + Qabs (qh - q))) by field.
  rewrite E4. lra.
Qed.

(** Quantizing with a resolved scale, 0-dim or along an axis, that is on the
    device of the base, broadcasts to its shape, is positive and covers it,
    then dequantizing. *)
Lemma roundtrip_resolved (c1 c2 : FunctionCtx) (base : tensor) (qt : qtype)
    (scale : option tensor) (resolved : tensor) (lo hi : Z) :
  is_floating_point qt = false ->
  integer_storage (qtype_dtype qt) lo hi ->
  (lo <= - hi)%Z ->
  resolved = match scale with
             | None => absmax_scale base qt
             | Some s => s
             end ->
  device resolved = device base ->
  ndim resolved = 0 \/
    (nonunit_dims (shape resolved) <= 1 /\ ndim resolved = ndim base) ->
  broadcast_shapes (shape base) (shape resolved) = Ok (shape base) ->
  (forall k, k < numel (shape base) ->
     (0 < bget resolved (shape base) k)%Q /\
     (Qabs (tget base k) <= bget resolved (shape base) k * inject_Z hi)%Q) ->
  exists (q : QTensor) (d : tensor),
    Quantizer_forward c1 base qt scale = Ok q /\
    Dequantizer_forward c2 q = Ok d /\
    shape d = shape base /\
    (ndim resolved = 0 -> _scale q = resolved) /\
    forall k, k < numel (shape base) ->
      let sk := bget resolved (shape base) k in
      let qh := div_elt (result_type (dtype base) (ndim base)
                                     (dtype resolved) (ndim resolved))
                        (tget base k) sk in
      tget (_data q) k == inject_Z (clamp_Z lo hi (round_half_even qh)) /\
      tget d k = mul_elt (dtype d) sk (tget (_data q) k) /\
      (Qabs (tget d k - tget base k)
       <= sk / 2 + sk * Qabs (qh - tget base k / sk)
          + Qabs (tget d k - sk * tget (_data q) k))%Q.
Proof.
  intros Hfp Hint Hlo Hres Hdev Hvalid Hfits Hcover.
  set (info := dtype_info (qtype_dtype qt)).
  (* the quantizer *)
  pose proof (binop_same_device div_elt base resolved (shape base) (eq_sym Hdev) Hfits)
    as Hdiv.
  set (d0 := {| shape := shape base |}) in Hdiv.
  set (data := tensor_to (torch_clamp (torch_round d0) (imin info) (imax info))
                         (qtype_dtype qt)).
  assert (Hrun : Quantizer_forward c1 base qt scale
                 = QTensor_construct qt data resolved false).
  { rewrite (Quantizer_forward_resolved c1 base qt scale resolved Hres Hvalid).
    unfold torch_div. rewrite Hdiv. cbn [bind]. rewrite Hfp. reflexivity. }
  destruct (QTensor_construct_ok qt data resolved false) as [q Hq];
    [now symmetry | exact Hvalid |].
  destruct (QTensor_construct_inv _ _ _ _ _ Hq) as (_ & _ & Hqt & Hdata & _).
  destruct (stored_scale _ _ _ _ _ Hq) as (Hsdev & Hread & Hbroad & Hkeep).
  (* the dequantizer *)
  assert (Hfits' : broadcast_shapes (shape (_scale q)) (shape (_data q))
                   = Ok (shape base)).
  { rewrite Hdata. apply Hbroad. now rewrite broadcast_shapes_comm. }
  assert (Hdev' : device (_scale q) = device (_data q)).
  { rewrite Hsdev, Hdata. now rewrite Hdev. }
  pose proof (binop_same_device mul_elt (_scale q) (_data q) (shape base) Hdev' Hfits')
    as Hmul.
  set (d := {| shape := shape base |}) in Hmul.
  exists q, d. split; [now rewrite Hrun |].
  split; [unfold Dequantizer_forward; rewrite Hqt, Hfp; exact Hmul |].
  split; [reflexivity |]. split; [exact Hkeep |].
  (* one element *)
  intros k Hk sk qh. destruct (Hcover k Hk) as [Hpos Hcov]. fold sk in Hpos, Hcov.
  assert (Helt : tget (_data q) k == inject_Z (clamp_Z lo hi (round_half_even qh))).
  { rewrite Hdata.
    pose proof (tget_quantized qt d0 k) as Hget. cbv zeta in Hget.
    rewrite Hfp in Hget. cbn [negb] in Hget. fold info in Hget. fold data in Hget.
    rewrite Hget by (subst d0; cbn [values]; now rewrite length_map, length_seq).
    unfold tget at 1. subst d0. cbn [values].
    rewrite nth_map_seq by exact Hk.
    rewrite (bget_self base k Hk). fold sk. fold qh.
    now apply quantize_elt_integer. }
  split; [exact Helt |].
  assert (Hd : tget d k = mul_elt (dtype d) sk (tget (_data q) k)).
  { unfold tget at 1. subst d. cbn [values dtype].
    rewrite nth_map_seq by exact Hk.
    rewrite Hread. fold sk. f_equal.
    assert (Hsh : shape (_data q) = shape base) by now rewrite Hdata.
    rewrite <- Hsh. apply bget_self. now rewrite Hsh. }
  split; [exact Hd |].
  now apply (rescaled_error sk (tget base k) qh (tget d k) (tget (_data q) k) lo hi).
Qed.


(** ** The round trip with a scale along an axis *)

(** Quantizing with a given scale, along an axis or 0-dim, that broadcasts to
    the shape of the base, is positive and covers the base (no element
    exceeds its scale times the largest integer of the qtype), then
    dequantizing, succeeds and returns a tensor of the shape of the base.
    Each stored element is the host's quotient of the element by its scale,
    rounded and clamped, and each element of the result is within half of its
    own scale of the element of the base, plus what the host's arithmetic is
    off by: that scale times the error of the host's quotient, and the error
    of the host's product. *)
Theorem per_axis_roundtrip_error_bound (c1 c2 : FunctionCtx) (base : tensor)
    (qt : qtype) (s : tensor) (lo hi : Z) :
  is_floating_point qt = false ->
  integer_storage (qtype_dtype qt) lo hi ->
  (lo <= - hi)%Z ->
  device s = device base ->
  ndim s = 0 \/ (nonunit_dims (shape s) <= 1 /\ ndim s = ndim base) ->
  broadcast_shapes (shape base) (shape s) = Ok (shape base) ->
  (forall k, k < numel (shape base) ->
     (0 < bget s (shape base) k)%Q /\
     (Qabs (tget base k) <= bget s (shape base) k * inject_Z hi)%Q) ->
  exists (q : QTensor) (d : tensor),
    Quantizer_forward c1 base qt (Some s) = Ok q /\
    Dequantizer_forward c2 q = Ok d /\
    shape d = shape base /\
    forall k, k < numel (shape base) ->
      let sk := bget s (shape base) k in
      let qh := div_elt (result_type (dtype base) (ndim base) (dtype s) (ndim s))
                        (tget base k) sk in
      tget (_data q) k == inject_Z (clamp_Z lo hi (round_half_even qh)) /\
      tget d k = mul_elt (dtype d) sk (tget (_data q) k) /\
      (Qabs (tget d k - tget base k)
       <= sk / 2 + sk * Qabs (qh - tget base k / sk)
          + Qabs (tget d k - sk * tget (_data q) k))%Q.
Proof.
  intros Hfp Hint Hlo Hdev Hvalid Hfits Hcover.
  destruct (roundtrip_resolved c1 c2 base qt (Some s) s lo hi
              Hfp Hint Hlo eq_refl Hdev Hvalid Hfits Hcover)
    as (q & d & Hq & Hd & Hshape & _ & Helt).
  exists q, d. split; [exact Hq |]. split; [exact Hd |].
  split; [exact Hshape | exact Helt].
Qed.

(** ** Unflattening *)

Lemma two_entry_map {V : Type} (m : gmap string V) (i j : string) (x y : V) :
  i <> j -> size m = 2 -> m !! i = Some x -> m !! j = Some y ->
  m = <[ i := x ]> (<[ j := y ]> ∅).
Proof.
  intros Hij Hsize Hi Hj.
  rewrite <- (insert_delete_id m i x Hi). f_equal.
  assert (Hj' : delete i m !! j = Some y) by now rewrite lookup_delete_ne.
  rewrite <- (insert_delete_id (delete i m) j y Hj'). f_equal.
  apply map_size_empty_inv.
  rewrite map_size_delete_Some by eauto.
  rewrite map_size_delete_Some by eauto.
  now rewrite Hsize.
Qed.

Lemma one_entry_map {V : Type} (m : gmap string V) (i : string) (x : V) :
  size m = 1 -> m !! i = Some x -> m = {[ i := x ]}.
Proof.
  intros Hsize Hi.
  rewrite <- (insert_delete_id m i x Hi).
  assert (E : delete i m = ∅).
  { apply map_size_empty_inv. rewrite map_size_delete_Some by eauto.
    now rewrite Hsize. }
  rewrite E. apply insert_empty.
Qed.

(** Unflattening returns only for a mapping that holds _data and _scale and
    nothing else and metadata that holds qtype and nothing else.  The
    QTensor returned is one the constructor made, it does not require a
    gradient, and flattening it gives the metadata back and the inner tensors
    back, except that a scale of unit dimensions only comes back squeezed. *)
Theorem unflatten_then_flatten (inner : gmap string tensor) (meta : gmap string qtype)
    (outer_size outer_stride : list nat) (q : QTensor) :
  QTensor__tensor_unflatten__ inner meta outer_size outer_stride = Ok q ->
  QTensor_valid q /\
  w_requires_grad (outer q) = false /\
  snd (QTensor__tensor_flatten__ q) = meta /\
  exists scale,
    inner = <[ "_data" := _data q ]> (<[ "_scale" := scale ]> ∅) /\
    (_scale q = scale \/
     (_scale q = squeeze scale /\ 0 < ndim scale /\ nonunit_dims (shape scale) = 0)) /\
    (_scale q = scale ->
     inner_tensors_of q (fst (QTensor__tensor_flatten__ q)) = inner).
Proof.
  unfold QTensor__tensor_unflatten__, getitem.
  destruct (Nat.eqb_spec (size inner) 2) as [H2|]; cbn [py_assert bind]; [| discriminate].
  destruct (Nat.eqb_spec (size meta) 1) as [H1|]; cbn [py_assert bind]; [| discriminate].
  destruct (inner !! "_data") as [data|] eqn:Hd; cbn [bind]; [| discriminate].
  destruct (inner !! "_scale") as [scale|] eqn:Hs; cbn [bind]; [| discriminate].
  destruct (meta !! "qtype") as [qt|] eqn:Hm; cbn [bind]; [| discriminate].
  intros Hq.
  destruct (QTensor_construct_inv _ _ _ _ _ Hq) as (_ & Ho & Hqt & Hdata & Hcases).
  split; [now exists qt, data, scale, false |].
  split; [now rewrite Ho |].
  split.
  { cbv [QTensor__tensor_flatten__ snd]. rewrite Hqt. symmetry.
    now apply one_entry_map. }
  assert (Hinner : inner = <[ "_data" := _data q ]> (<[ "_scale" := scale ]> ∅)).
  { rewrite Hdata. now apply two_entry_map. }
  exists scale. split; [exact Hinner |]. split.
  - destruct Hcases as [(_ & _ & ->) | (Hpos & _ & _ & [(Hnone & _ & ->) | (a & _ & -> & _)])];
      [now left | right | now left].
    split; [reflexivity |]. split; [assumption |].
    apply nonunit_dims_zero. now apply (proj1 (axis_loop_None _ _)).
  - intros Hsame. cbv [QTensor__tensor_flatten__ fst].
    rewrite inner_tensors_of_flatten, Hsame. now symmetry.
Qed.

(** ** qfallback and trees without QTensors *)

Lemma tree_map_only_free (fn : QTensor -> result tensor) (tree : pytree) :
  qtensor_free tree = true -> tree_map_only fn tree = Ok tree.
Proof.
  induction tree as [v | items IH | items IH | items IH] using pytree_ind; simpl.
  - destruct v; try reflexivity. discriminate.
  - intros Hfree.
    assert (Hm : mapM (tree_map_only fn) items = Ok items).
    { induction items as [|x xs IHxs]; [reflexivity |].
      simpl in Hfree. apply andb_true_iff in Hfree. destruct Hfree as [Hx Hxs].
      inversion IH as [|? ? Hx' Hxs']; subst.
      simpl. rewrite (Hx' Hx). simpl. rewrite (IHxs Hxs' Hxs). reflexivity. }
    now rewrite Hm.
  - intros Hfree.
    assert (Hm : mapM (tree_map_only fn) items = Ok items).
    { induction items as [|x xs IHxs]; [reflexivity |].
      simpl in Hfree. apply andb_true_iff in Hfree. destruct Hfree as [Hx Hxs].
      inversion IH as [|? ? Hx' Hxs']; subst.
      simpl. rewrite (Hx' Hx). simpl. rewrite (IHxs Hxs' Hxs). reflexivity. }
    now rewrite Hm.
  - intros Hfree.
    match goal with |- bind ?m _ = _ => assert (Hm : m = Ok items) end.
    { induction items as [|[k x] xs IHxs]; [reflexivity |].
      simpl in Hfree. apply andb_true_iff in Hfree. destruct Hfree as [Hx Hxs].
      inversion IH as [|? ? Hx' Hxs']; subst. simpl in Hx'.
      simpl. rewrite (Hx' Hx). simpl. rewrite (IHxs Hxs' Hxs). reflexivity. }
    now rewrite Hm.
Qed.

Lemma tree_map_only_result_free (fn : QTensor -> result tensor) (tree : pytree) :
  forall tree', tree_map_only fn tree = Ok tree' -> qtensor_free tree' = true.
Proof.
  induction tree as [v | items IH | items IH | items IH] using pytree_ind;
    intros tree'; simpl.
  - destruct v; try (now intros [= <-]).
    destruct (fn q); simpl; [now intros [= <-] | discriminate].
  - destruct (mapM _ items) as [items'|] eqn:Hm; simpl; [| discriminate].
    intros [= <-]. simpl. apply mapM_Ok_iff in Hm.
    induction Hm as [|x y l l' Hxy _ IHm]; [reflexivity |].
    inversion IH as [|? ? Hx Hl]; subst. simpl.
    now rewrite (Hx y Hxy), (IHm Hl).
  - destruct (mapM _ items) as [items'|] eqn:Hm; simpl; [| discriminate].
    intros [= <-]. simpl. apply mapM_Ok_iff in Hm.
    induction Hm as [|x y l l' Hxy _ IHm]; [reflexivity |].
    inversion IH as [|? ? Hx Hl]; subst. simpl.
    now rewrite (Hx y Hxy), (IHm Hl).
  - destruct (mapM _ items) as [items'|] eqn:Hm; simpl; [| discriminate].
    intros [= <-]. simpl. apply mapM_Ok_iff in Hm.
    induction Hm as [|[k x] [k' y] l l' Hxy _ IHm]; [reflexivity |].
    inversion IH as [|? ? Hx Hl]; subst. simpl in *.
    destruct (tree_map_only fn x) as [x'|] eqn:Ex; simpl in Hxy; [| discriminate].
    injection Hxy as <- <-.
    now rewrite (Hx x' eq_refl), (IHm Hl).
Qed.

(** qfallback leaves arguments in which no QTensor occurs as they are: it is
    then the plain call.  And the callable is only ever called on arguments in
    which no QTensor occurs: two callables that agree on such arguments give
    the same qfallback. *)
Theorem qfallback_qtensor_free {R : Type}
    (callable callable' : list pytree -> list (string * pytree) -> result R)
    (args : list pytree) (kwargs : list (string * pytree)) :
  (List.forallb qtensor_free args = true ->
   List.forallb (fun kv => qtensor_free (snd kv)) kwargs = true ->
   qfallback callable args kwargs = callable args kwargs) /\
  ((forall a k, List.forallb qtensor_free a = true ->
                List.forallb (fun kv => qtensor_free (snd kv)) k = true ->
                callable a k = callable' a k) ->
   qfallback callable args kwargs = qfallback callable' args kwargs).
Proof.
  unfold qfallback. rewrite or_empty_id. split.
  - intros Ha Hk.
    rewrite tree_map_only_free; [reflexivity |].
    simpl. now rewrite Ha, Hk.
  - intros Hagree.
    destruct (tree_map_only _ _) as [mapped|] eqn:Hm; simpl; [| reflexivity].
    pose proof (tree_map_only_result_free _ _ _ Hm) as Hfree.
    destruct mapped as [v | [|[v | a | a | a] [|[v' | k | k | k] [|]]] | l | l];
      try reflexivity.
    simpl in Hfree. rewrite andb_true_r in Hfree.
    apply andb_true_iff in Hfree. destruct Hfree as [Ha Hk].
    now apply Hagree.
Qed.

(** ** The shape and the axis of a quantized tensor *)

Lemma Quantizer_forward_checked (ctx : FunctionCtx) (base : tensor) (qt : qtype)
    (s : tensor) (q : QTensor) :
  Quantizer_forward ctx base qt (Some s) = Ok q ->
  ndim s = 0 \/ (nonunit_dims (shape s) <= 1 /\ ndim s = ndim base).
Proof.
  unfold Quantizer_forward. rewrite ndim_squeeze.
  destruct (Nat.ltb_spec 0 (ndim s)) as [Hpos|]; [| left; lia].
  destruct (Nat.ltb_spec 1 (nonunit_dims (shape s))); [discriminate |].
  destruct (Nat.eqb_spec (ndim s) (ndim base)); [| discriminate].
  intros _. right. split; assumption.
Qed.

(** The data of a quantized tensor, and the size the tensor shows, have the
    shape base and scale broadcast to, which is not always the shape of base:
    a dimension of size 1 of base is expanded to the size of the scale. *)
Theorem quantized_shape_is_broadcast (ctx : FunctionCtx) (base : tensor) (qt : qtype)
    (scale : option tensor) (q : QTensor) :
  Quantizer_forward ctx base qt scale = Ok q ->
  let resolved := match scale with
                  | Some s => s
                  | None => absmax_scale base qt
                  end in
  broadcast_shapes (shape base) (shape resolved) = Ok (shape (_data q)) /\
  w_size (outer q) = shape (_data q) /\
  ndim (_data q) = Nat.max (ndim base) (ndim resolved) /\
  (scale = None -> shape (_data q) = shape base).
Proof.
  intros Hq resolved.
  destruct (Quantizer_forward_inv _ _ _ _ _ Hq) as (d & Hd & Hdata & Hcons).
  fold resolved in Hd, Hcons.
  assert (Hshape : shape (_data q) = shape d).
  { rewrite Hdata. apply shape_quantized. }
  destruct (binop_inv _ _ _ _ Hd) as (_ & Hb & _).
  destruct (QTensor_construct_inv _ _ _ _ _ Hcons) as (_ & Ho & _).
  rewrite Hshape. split; [exact Hb |].
  split; [rewrite Ho; cbn [w_size]; exact Hshape |].
  split; [unfold ndim at 1; rewrite Hshape; exact (ndim_binop _ _ _ _ Hd) |].
  intros ->. subst resolved. cbn [absmax_scale shape] in Hb.
  rewrite broadcast_shapes_scalar_r in Hb. now injection Hb.
Qed.

(** Quantizing with a given non-scalar scale resolves the axis from that
    scale: the index of its dimension of size other than 1, -1 when that is
    the last dimension of base, and none, with the scale stored squeezed, when
    every dimension has size 1. *)
Theorem quantize_resolves_axis (ctx : FunctionCtx) (base : tensor) (qt : qtype)
    (s : tensor) (q : QTensor) :
  Quantizer_forward ctx base qt (Some s) = Ok q ->
  0 < ndim s ->
  ndim s = ndim base /\
  ndim (_data q) = ndim base /\
  (forall i, i < ndim s -> nth i (shape s) 0 <> 1 ->
     _scale q = s /\
     axis q = Some (if i =? ndim base - 1 then (-1)%Z else Z.of_nat i)) /\
  ((forall i, i < ndim s -> nth i (shape s) 0 = 1) ->
     axis q = None /\ _scale q = squeeze s).
Proof.
  intros Hq Hpos.
  destruct (Quantizer_forward_checked _ _ _ _ _ Hq) as [H0 | [Hone Hrank]]; [lia |].
  destruct (Quantizer_forward_inv _ _ _ _ _ Hq) as (d & Hd & Hdata & Hcons).
  cbv zeta in Hd, Hcons.
  assert (Hnd : ndim (_data q) = ndim base).
  { unfold ndim at 1. rewrite Hdata, (proj1 (shape_quantized qt d _ _ _)).
    fold (ndim d). rewrite (ndim_binop _ _ _ _ Hd). lia. }
  split; [exact Hrank |]. split; [exact Hnd |].
  destruct (QTensor_construct_inv _ _ _ _ _ Hcons) as (_ & _ & _ & _ & Hcases).
  destruct Hcases as [(H0 & _) | (_ & _ & _ & Hcases)]; [lia |].
  split.
  - intros i Hi Hni.
    destruct Hcases as [(Hnone & _) | (a & Hsome & Hs & Ha)].
    + exfalso. apply Hni. now apply (proj1 (axis_loop_None _ _) Hnone).
    + split; [assumption |]. unfold axis. rewrite Ha. f_equal.
      destruct (axis_loop_Some _ _ _ Hsome) as (i0 & -> & Hi0 & Hni0).
      assert (i0 = i) by now apply (nonunit_unique (shape s)).
      subst i0. rewrite <- Hrank.
      destruct (Z.eqb_spec (Z.of_nat i) (Z.of_nat (ndim s) - 1)),
               (Nat.eqb_spec i (ndim s - 1)); try reflexivity; lia.
  - intros Hall.
    destruct Hcases as [(_ & Hax & Hs) | (a & Hsome & _)].
    + split; assumption.
    + destruct (axis_loop_Some _ _ _ Hsome) as (i & _ & Hi & Hni).
      exfalso. now apply Hni, Hall.
Qed.

End MoreProperties.

(** ** Dispatch *)

Section DispatchProperties.
Context `{Registry}.

(** An operation with a registered quantized kernel is handed to that kernel
    with the arguments as they are, QTensors included; an operation with none
    is the plain operation of its overload packet applied to the arguments
    with every QTensor dequantized. *)
Theorem torch_dispatch_routes (op : torch_op) (types : list pytype)
    (args : list pytree) (kwargs : list (string * pytree)) :
  (forall qdispatch,
     get_qtensor_op_dispatch (overloadpacket op) = Some qdispatch ->
     QTensor__torch_dispatch__ op types args (Some kwargs) = qdispatch args kwargs) /\
  (get_qtensor_op_dispatch (overloadpacket op) = None ->
   forall args' kwargs',
     Forall2 dequantized args args' ->
     Forall2 (fun kv kv' => fst kv = fst kv' /\ dequantized (snd kv) (snd kv'))
             kwargs kwargs' ->
     QTensor__torch_dispatch__ op types args (Some kwargs)
     = call_packet (overloadpacket op) args' kwargs').
Proof.
  unfold QTensor__torch_dispatch__. split.
  - intros qdispatch ->. reflexivity.
  - intros -> args' kwargs' Hargs Hkwargs.
    unfold py_call, qfallback. rewrite or_empty_id.
    assert (Hm : tree_map_only QTensor_dequantize (PyTuple [PyTuple args; PyDict kwargs])
                 = Ok (PyTuple [PyTuple args'; PyDict kwargs'])).
    { apply tree_map_only_dequantized. repeat constructor; assumption. }
    now rewrite Hm.
Qed.

End DispatchProperties.

(** * The further properties on the example host *)

(** [int8] stores the integers from -128 to 127. *)
Lemma int8_integer_storage : @integer_storage torch3 int8 (-128) 127.
Proof.
  split; [reflexivity |]. split; [discriminate |].
  intros z Hz. simpl.
  rewrite Qtrunc_inject_Z, Z.mod_small by lia.
  replace (z + 128 - 128)%Z with z by lia. reflexivity.
Qed.

Lemma int8_integer_storage_ieee : @integer_storage torch3_ieee int8 (-128) 127.
Proof.
  split; [reflexivity |]. split; [discriminate |].
  intros z Hz. simpl.
  rewrite Qtrunc_inject_Z, Z.mod_small by lia.
  replace (z + 128 - 128)%Z with z by lia. reflexivity.
Qed.




Lemma Quantizer_forward_raises_witness :
  Quantizer_forward tt (f32_cuda [2] [1; 2]%Q) qint8 (Some example_scale0)
  = Raise AssertionError /\
  ((exists s, Some example_scale0 = Some s /\ 1 < nonunit_dims (shape s) /\
              AssertionError
              = ValueError "Quantizing along multiple axis is not supported") \/
   (exists s, Some example_scale0 = Some s /\ 0 < ndim s /\
              nonunit_dims (shape s) <= 1 /\
              ndim s <> ndim (f32_cuda [2] [1; 2]%Q) /\
              AssertionError
              = ValueError "When quantizing per-axis, the scale must be broadcastable to the base (Tip: try to add missing dims of length zero).") \/
   (exists msg, AssertionError = RuntimeError msg) \/
   (exists s, Some example_scale0 = Some s /\ ndim s = 0 /\
              device s <> device (f32_cuda [2] [1; 2]%Q) /\
              AssertionError = AssertionError)).
Proof.
  assert (Hraise : Quantizer_forward tt (f32_cuda [2] [1; 2]%Q) qint8 (Some example_scale0)
                   = Raise AssertionError) by reflexivity.
  split; [exact Hraise |].
  exact (Quantizer_forward_raises tt (f32_cuda [2] [1; 2]%Q) qint8 (Some example_scale0)
                                  AssertionError Hraise).
Defined.

(** The worked example of the specification with the arithmetic of
    [float32]: the scale is 5/127 rounded to binary32, the stored integers are
    the same, and the elements come back within half the scale. *)
Example quantize_worked_example_ieee :
  (q <- Quantizer_forward tt (f32_ieee [3] [-5; 0; 5]%Q) qint8_ieee None;;
   d <- Dequantizer_forward tt q;;
   Ok (values (_scale q), values (_data q),
       map (fun x => Qle_bool (Qabs x) (to_float32 (5 # 127) / 2))
           (zip_with Qminus (values d) [-5; 0; 5]%Q)))
  = Ok ([to_float32 (5 # 127)], [-127; 0; 127]%Q, [true; true; true]).
Proof. reflexivity. Qed.

(** Division by a zero scale: the quotients are infinities, which the
    quantizer stores as the bounds of [int8]. *)
Example quantize_by_zero_scale :
  Quantizer_forward tt unit_base qint8_ieee (Some zero_scale) = Ok zero_q.
Proof. reflexivity. Qed.

Lemma quantized_elements_saturate_witness :
  Quantizer_forward tt unit_base qint8_ieee (Some zero_scale) = Ok zero_q /\
  (inject_Z 127 <= ieee_div float32 (tget unit_base 0) (tget zero_scale 0))%Q /\
  exists z : Z, tget (_data zero_q) 0 == inject_Z z /\ z = 127%Z.
Proof.
  assert (Hq : Quantizer_forward tt unit_base qint8_ieee (Some zero_scale) = Ok zero_q)
    by reflexivity.
  assert (Hy : (inject_Z 127
                <= ieee_div float32 (tget unit_base 0) (tget zero_scale 0))%Q)
    by (vm_compute; discriminate).
  split; [exact Hq |]. split; [exact Hy |].
  destruct (quantized_elements_saturate tt unit_base qint8_ieee (Some zero_scale)
              zero_q (-128) 127 0 eq_refl int8_integer_storage_ieee Hq
              ltac:(repeat constructor))
    as (z & Hz & _ & Hhi & _).
  exists z. split; [exact Hz |].
  exact (Hhi Hy).
Defined.

(** Division by a positive divisor is monotone on the host with exact
    arithmetic. *)
Lemma exact_div_monotone (x y t : Q) :
  (0 < t)%Q -> (x <= y)%Q -> (exact_div x t <= exact_div y t)%Q.
Proof.
  intros Ht Hxy. unfold exact_div.
  destruct (Qeq_bool t 0) eqn:E.
  - apply Qeq_bool_eq in E. lra.
  - unfold Qdiv. apply Qmult_le_compat_r; [assumption |].
    apply Qlt_le_weak, Qinv_lt_0_compat, Ht.
Qed.

Lemma quantization_monotone_witness :
  exists q,
    Quantizer_forward tt example_base_wide qint8 (Some example_scale0) = Ok q /\
    (tget example_base_wide 1 <= tget example_base_wide 2)%Q /\
    (tget (_data q) 1 <= tget (_data q) 2)%Q.
Proof.
  destruct (Quantizer_forward tt example_base_wide qint8 (Some example_scale0))
    as [q|] eqn:Hq; [| discriminate].
  exists q. split; [reflexivity |].
  assert (Hle : (tget example_base_wide 1 <= tget example_base_wide 2)%Q) by discriminate.
  split; [exact Hle |].
  exact (quantization_monotone tt example_base_wide qint8 example_scale0 q (-128) 127 1 2
           eq_refl int8_integer_storage eq_refl eq_refl exact_div_monotone Hq
           ltac:(repeat constructor) ltac:(repeat constructor) Hle).
Defined.

Lemma scalar_scale_dequantizes_witness :
  QTensor_valid example_q /\
  axis example_q = None /\
  exists d,
    Dequantizer_forward tt example_q = Ok d /\
    shape d = shape (_data example_q) /\
    device d = device (_data example_q) /\
    forall k, k < numel (shape (_data example_q)) ->
              tget d k = (tget (_scale example_q) 0 * tget (_data example_q) k)%Q.
Proof.
  assert (Hvalid : QTensor_valid example_q).
  { exists qint8, (i8 [3] [-127; 0; 127]%Q), (f32 [] [5 # 127]%Q), false.
    reflexivity. }
  split; [exact Hvalid |]. split; [reflexivity |].
  exact (scalar_scale_dequantizes tt example_q Hvalid eq_refl).
Defined.

(** The host's quotient of its product comes back to the integers stored for
    [tie_base]. *)
Lemma tie_q_comes_back (k : nat) :
  k < numel (shape tie_base) ->
  (Qabs (ieee_div float32 (ieee_mul float32 (tget tie_scale 0) (tget (_data tie_q) k))
                          (tget tie_scale 0)
         - tget (_data tie_q) k) < 1 # 2)%Q.
Proof.
  intros Hk.
  do 2 (destruct k as [|k]; [vm_compute; reflexivity |]).
  exfalso. simpl in Hk. lia.
Qed.

Lemma requantization_is_stable_witness :
  Quantizer_forward tt tie_base qint8_ieee (Some tie_scale) = Ok tie_q /\
  (forall k, k < numel (shape tie_base) ->
     (Qabs (ieee_div float32 (ieee_mul float32 (tget tie_scale 0) (tget (_data tie_q) k))
                             (tget tie_scale 0)
            - tget (_data tie_q) k) < 1 # 2)%Q) /\
  exists d q',
    Dequantizer_forward tt tie_q = Ok d /\
    Quantizer_forward tt d qint8_ieee (Some tie_scale) = Ok q' /\
    shape (_data q') = shape (_data tie_q) /\
    forall k, k < numel (shape tie_base) ->
              tget (_data q') k == tget (_data tie_q) k.
Proof.
  assert (Hq : Quantizer_forward tt tie_base qint8_ieee (Some tie_scale) = Ok tie_q)
    by reflexivity.
  split; [exact Hq |]. split; [exact tie_q_comes_back |].
  exact (requantization_is_stable tt tt tt tie_base qint8_ieee tie_scale
           (-128) 127 tie_q eq_refl int8_integer_storage_ieee eq_refl eq_refl Hq
           tie_q_comes_back).
Defined.

Lemma near_tie_scale_covers (k : nat) :
  k < numel (shape near_tie_base) ->
  (0 < bget near_tie_scale (shape near_tie_base) k)%Q /\
  (Qabs (tget near_tie_base k)
   <= bget near_tie_scale (shape near_tie_base) k * inject_Z 127)%Q.
Proof.
  intros Hk.
  do 2 (destruct k as [|k]; [split; vm_compute; [reflexivity | discriminate] |]).
  exfalso. simpl in Hk. lia.
Qed.

Lemma per_axis_roundtrip_error_bound_witness :
  is_floating_point qint8_ieee = false /\
  device near_tie_scale = device near_tie_base /\
  nonunit_dims (shape near_tie_scale) <= 1 /\
  ndim near_tie_scale = ndim near_tie_base /\
  broadcast_shapes (shape near_tie_base) (shape near_tie_scale)
  = Ok (shape near_tie_base) /\
  exists (q : @QTensor torch3_ieee) (d : @tensor torch3_ieee),
    Quantizer_forward tt near_tie_base qint8_ieee (Some near_tie_scale) = Ok q /\
    Dequantizer_forward tt q = Ok d /\
    shape d = shape near_tie_base /\
    tget (_data q) 0
    == inject_Z (clamp_Z (-128) 127
                   (round_half_even
                      (ieee_div float32 (tget near_tie_base 0)
                                        (bget near_tie_scale (shape near_tie_base) 0)))).
Proof.
  assert (Hone : nonunit_dims (shape near_tie_scale) <= 1) by (repeat constructor).
  assert (Hlo : (-128 <= - 127)%Z) by discriminate.
  split; [reflexivity |]. split; [reflexivity |]. split; [exact Hone |].
  split; [reflexivity |]. split; [reflexivity |].
  destruct (per_axis_roundtrip_error_bound tt tt near_tie_base qint8_ieee near_tie_scale
              (-128) 127 eq_refl int8_integer_storage_ieee Hlo eq_refl
              (or_intror (conj Hone eq_refl)) eq_refl near_tie_scale_covers)
    as (q & d & Hq & Hd & Hshape & Helt).
  exists q, d. split; [exact Hq |]. split; [exact Hd |]. split; [exact Hshape |].
  exact (proj1 (Helt 0 ltac:(repeat constructor))).
Defined.

(** The element of [near_tie_base] whose exact quotient by its scale is just
    below 1.5 is stored as 2: the quotient of [float32] is 1.5. *)
Example near_tie_stored :
  (q <- Quantizer_forward tt near_tie_base qint8_ieee (Some near_tie_scale);;
   Ok (values (_data q)))
  = Ok [2; 2]%Q /\
  (tget near_tie_base 0 / tget near_tie_scale 0 < 3 # 2)%Q.
Proof. split; reflexivity. Qed.

Lemma unflatten_then_flatten_witness :
  QTensor__tensor_unflatten__
    (inner_tensors_of example_q4 ["_data"; "_scale"]) {[ "qtype" := qint8 ]} [] []
  = Ok example_q4 /\
  snd (QTensor__tensor_flatten__ example_q4) = {[ "qtype" := qint8 ]}.
Proof.
  assert (Hun : QTensor__tensor_unflatten__
                  (inner_tensors_of example_q4 ["_data"; "_scale"])
                  {[ "qtype" := qint8 ]} [] []
                = Ok example_q4) by reflexivity.
  split; [exact Hun |].
  exact (proj1 (proj2 (proj2 (unflatten_then_flatten _ _ _ _ _ Hun)))).
Defined.

Lemma qfallback_qtensor_free_witness :
  List.forallb qtensor_free plain_args = true /\
  qfallback return_arguments plain_args example_kwargs
  = return_arguments plain_args example_kwargs.
Proof.
  split; [reflexivity |].
  exact (proj1 (qfallback_qtensor_free return_arguments return_arguments
                                       plain_args example_kwargs)
               eq_refl eq_refl).
Defined.

Lemma torch_dispatch_routes_witness :
  @get_qtensor_op_dispatch torch3 registry2 (@overloadpacket torch3 registry2 add_Tensor)
  = None /\
  Forall2 dequantized example_args example_args' /\
  @QTensor__torch_dispatch__ torch3 registry2 add_Tensor [] example_args
                             (Some example_kwargs)
  = Ok ("op", example_args').
Proof.
  assert (Hq : QTensor_dequantize example_q = Ok example_deq) by reflexivity.
  assert (Hargs : Forall2 dequantized example_args example_args').
  { repeat constructor; try exact Hq; discriminate. }
  assert (Hkwargs : Forall2 (fun kv kv' => fst kv = fst kv' /\
                                           dequantized (snd kv) (snd kv'))
                            example_kwargs example_kwargs).
  { repeat constructor; discriminate. }
  split; [reflexivity |]. split; [exact Hargs |].
  exact (proj2 (@torch_dispatch_routes torch3 registry2 add_Tensor [] example_args
                                       example_kwargs)
               eq_refl example_args' example_kwargs Hargs Hkwargs).
Defined.

(** An operation with a registered kernel is handed QTensors as they are. *)
Example torch_dispatch_registered :
  @QTensor__torch_dispatch__ torch3 registry2 mul_Tensor [] example_args
                             (Some example_kwargs)
  = Ok ("qdispatch", example_args).
Proof. reflexivity. Qed.

Lemma quantized_shape_is_broadcast_witness :
  exists q,
    Quantizer_forward tt example_base_row qint8 (Some example_scale_col) = Ok q /\
    broadcast_shapes (shape example_base_row) (shape example_scale_col)
    = Ok (shape (_data q)) /\
    shape (_data q) = [4; 3].
Proof.
  destruct (Quantizer_forward tt example_base_row qint8 (Some example_scale_col))
    as [q|] eqn:Hq; [| discriminate].
  exists q. split; [reflexivity |].
  destruct (quantized_shape_is_broadcast tt example_base_row qint8
              (Some example_scale_col) q Hq) as (Hb & _).
  split; [exact Hb |].
  cbv zeta in Hb. symmetry in Hb. now injection Hb as <-.
Defined.

Lemma quantize_resolves_axis_witness :
  exists q,
    Quantizer_forward tt example_base_rows qint8 (Some example_scale_rows) = Ok q /\
    0 < ndim example_scale_rows /\
    nth 0 (shape example_scale_rows) 0 <> 1 /\
    _scale q = example_scale_rows /\
    axis q = Some 0%Z.
Proof.
  destruct (Quantizer_forward tt example_base_rows qint8 (Some example_scale_rows))
    as [q|] eqn:Hq; [| discriminate].
  exists q. split; [reflexivity |].
  assert (Hpos : 0 < ndim example_scale_rows) by (repeat constructor).
  assert (Hn : nth 0 (shape example_scale_rows) 0 <> 1) by discriminate.
  destruct (quantize_resolves_axis tt example_base_rows qint8 example_scale_rows q
              Hq Hpos) as (_ & _ & Hnonunit & _).
  destruct (Hnonunit 0 Hpos Hn) as [Hs Hax].
  split; [exact Hpos |]. split; [exact Hn |]. split; [exact Hs | exact Hax].
Defined.
